(** * Task Manager API (main.py): a shallow embedding and its properties

    The program is a FastAPI service over one SQLite table [tasks].  Each
    request handler opens a connection, runs one to three SQL statements and
    closes it; [create_task] also starts a thread that sleeps 20 seconds and
    then marks the task completed.

    The embedding follows the source handler by handler:
    - [Datetime] models the readings of [datetime.now()] and [isoformat()];
    - [Task] is the pydantic model / the row of the table;
    - [Db] gives the meaning of the five SQL statements the handlers issue;
    - [create_task], [complete_task], [list_tasks], [get_task], [update_task]
      and [delete_task] are the handlers, as functions of the table;
    - [World] adds the clocks, the sleeping completion threads and the ids
      handed out so far, and [run] executes one action of the service.

    Modelling boundaries.  A handler runs atomically (the interleaving of two
    handlers' statements is not modelled).  Strings are byte strings (the
    UTF-8 text SQLite stores and compares with memcmp).  Integers are
    unbounded as in Python; the driver binds an integer parameter as a
    signed 64-bit SQLite INTEGER and raises [OverflowError] otherwise.  The
    wall clock read by [datetime.now()] is naive local time: it may show any
    valid reading after any other, while the clock [time.sleep] counts on
    only moves forward. *)

From Stdlib Require Import ZArith List String Ascii Bool Lia.
From Stdlib Require Import Permutation Sorted RelationClasses.
Import ListNotations.

Local Open Scope string_scope.
Local Open Scope list_scope.
Local Open Scope Z_scope.

(** ** Results of a handler *)

(** What a handler can raise: the [HTTPException(status_code=404)] of the
    source, and the exceptions the source does not catch
    ([sqlite3.IntegrityError] from the PRIMARY KEY constraint, the
    [TypeError] of [row_to_task(None)], and the [OverflowError] of the
    driver when it binds an integer that does not fit 64 bits). *)
Inductive error : Type :=
| HTTP404 (detail : string)
| IntegrityError
| TypeError
| OverflowError.

Inductive result (A : Type) : Type :=
| Ok (a : A)
| Raise (e : error).
Arguments Ok {A} a.
Arguments Raise {A} e.

Definition NotFound : error := HTTP404 "Task not found".

(** ** Python truthiness, as used by [if status:], [if limit:], [if updates:] *)

Module Py.

Definition truthy_str (s : option string) : bool :=
  match s with
  | None => false
  | Some s => negb (s =? "")%string
  end.

Definition truthy_int (n : option Z) : bool :=
  match n with
  | None => false
  | Some n => negb (n =? 0)
  end.

Definition truthy_dict {K V : Type} (d : list (K * V)) : bool :=
  match d with
  | [] => false
  | _ :: _ => true
  end.

End Py.

(** ** Lexicographic combination of comparisons *)

Definition lex (c1 c2 : comparison) : comparison :=
  match c1 with
  | Eq => c2
  | _ => c1
  end.

(** ** [datetime]: the naive local time read by [datetime.now()] *)

Module Datetime.

Record t : Type := make {
  year : Z; month : Z; day : Z;
  hour : Z; minute : Z; second : Z; microsecond : Z
}.

Definition in_range (lo x hi : Z) : bool := (lo <=? x) && (x <=? hi).

(** The field ranges of a Python [datetime] (MINYEAR = 1, MAXYEAR = 9999). *)
Definition validb (d : t) : bool :=
  in_range 1 (year d) 9999 && in_range 1 (month d) 12 &&
  in_range 1 (day d) 31 && in_range 0 (hour d) 23 &&
  in_range 0 (minute d) 59 && in_range 0 (second d) 59 &&
  in_range 0 (microsecond d) 999999.

Definition valid (d : t) : Prop := validb d = true.

(** Python compares naive datetimes field by field, most significant
    first. *)
Definition compare (a b : t) : comparison :=
  lex (year a ?= year b)
 (lex (month a ?= month b)
 (lex (day a ?= day b)
 (lex (hour a ?= hour b)
 (lex (minute a ?= minute b)
 (lex (second a ?= second b)
      (microsecond a ?= microsecond b)))))).

Definition leb (a b : t) : bool :=
  match compare a b with Gt => false | _ => true end.

Definition le (a b : t) : Prop := leb a b = true.

(** One decimal digit, ['0'] .. ['9']. *)
Definition digit (n : Z) : ascii := ascii_of_N (Z.to_N (48 + n)).

(** ["%0wd" % n] for [0 <= n < 10^w]: exactly [w] digits, most
    significant first. *)
Fixpoint zfill (w : nat) (n : Z) : string :=
  match w with
  | O => ""
  | S w' => String (digit (n / 10 ^ Z.of_nat w'))
                   (zfill w' (n mod 10 ^ Z.of_nat w'))
  end.

(** [datetime.isoformat()]: ["YYYY-MM-DDTHH:MM:SS.ffffff"], the fraction
    omitted when [microsecond] is 0. *)
Definition isoformat (d : t) : string :=
  (zfill 4 (year d) ++ "-" ++ zfill 2 (month d) ++ "-" ++ zfill 2 (day d) ++
   "T" ++ zfill 2 (hour d) ++ ":" ++ zfill 2 (minute d) ++ ":" ++
   zfill 2 (second d) ++
   (if (microsecond d =? 0)%Z then "" else "." ++ zfill 6 (microsecond d))
  )%string.

End Datetime.

(** ** The models of the request bodies and of the stored row *)

Module Task.

(** [class Task(BaseModel)], also the row of table [tasks]. *)
Record t : Type := make {
  id : string;
  name : option string;
  status : string;
  created_at : string;
  completed_at : option string
}.

End Task.

Module TaskCreate.
Record t : Type := make { name : option string }.
End TaskCreate.

Module TaskUpdate.
Record t : Type := make { status : option string; name : option string }.
End TaskUpdate.

(** ** The SQL statements issued by the handlers *)

Module Db.

(** Table [tasks], rows in insertion (rowid) order. *)
Definition table : Type := list Task.t.

Inductive column : Type :=
| Cid | Cname | Cstatus | Ccreated_at | Ccompleted_at.

Definition has_id (task_id : string) (r : Task.t) : bool :=
  (Task.id r =? task_id)%string.

(** [SELECT * FROM tasks WHERE id = ?] followed by [fetchone()]. *)
Definition select_by_id (task_id : string) (tb : table) : option Task.t :=
  find (has_id task_id) tb.

(** [INSERT INTO tasks (id, name, status, created_at, completed_at)
    VALUES (?, ?, ?, ?, ?)]; [id] is the PRIMARY KEY. *)
Definition insert (r : Task.t) (tb : table) : result table :=
  match select_by_id (Task.id r) tb with
  | Some _ => Raise IntegrityError
  | None => Ok (tb ++ [r])
  end.

(** One assignment [column = ?] of a SET clause, the parameter bound to a
    string. *)
Definition assign (r : Task.t) (kv : column * string) : Task.t :=
  match kv with
  | (Cid, v) =>
      Task.make v (Task.name r) (Task.status r) (Task.created_at r)
                (Task.completed_at r)
  | (Cname, v) =>
      Task.make (Task.id r) (Some v) (Task.status r) (Task.created_at r)
                (Task.completed_at r)
  | (Cstatus, v) =>
      Task.make (Task.id r) (Task.name r) v (Task.created_at r)
                (Task.completed_at r)
  | (Ccreated_at, v) =>
      Task.make (Task.id r) (Task.name r) (Task.status r) v
                (Task.completed_at r)
  | (Ccompleted_at, v) =>
      Task.make (Task.id r) (Task.name r) (Task.status r)
                (Task.created_at r) (Some v)
  end.

(** [UPDATE tasks SET k1 = ?, k2 = ?, ... WHERE id = ?]. *)
Definition update_by_id (sets : list (column * string)) (task_id : string)
    (tb : table) : table :=
  map (fun r => if has_id task_id r then fold_left assign sets r else r) tb.

(** [DELETE FROM tasks WHERE id = ?], with the cursor's [rowcount]. *)
Definition delete_by_id (task_id : string) (tb : table) : table * Z :=
  (filter (fun r => negb (has_id task_id r)) tb,
   Z.of_nat (List.length (filter (has_id task_id) tb))).

(** [ORDER BY created_at DESC]: TEXT values under the BINARY collation,
    i.e. compared byte by byte.  Rows with equal keys stay in scan order
    (SQL leaves their order open). *)
Fixpoint insert_desc (r : Task.t) (rows : list Task.t) : list Task.t :=
  match rows with
  | [] => [r]
  | x :: rows' =>
      if String.ltb (Task.created_at r) (Task.created_at x)
      then x :: insert_desc r rows'
      else r :: x :: rows'
  end.

Definition order_by_created_at_desc (rows : list Task.t) : list Task.t :=
  fold_right insert_desc [] rows.

(** [LIMIT ?]: a negative value means no upper bound. *)
Definition limit (n : Z) (rows : list Task.t) : list Task.t :=
  if n <? 0 then rows else firstn (Z.to_nat n) rows.

(** Whether the driver can bind the Python integer [n] as a parameter: it
    must fit a signed 64-bit SQLite INTEGER. *)
Definition binds (n : Z) : bool := (- 2 ^ 63 <=? n) && (n <? 2 ^ 63).

(** [SELECT * FROM tasks [WHERE status = ?] ORDER BY created_at DESC
    [LIMIT ?]] followed by [fetchall()]; [execute] raises [OverflowError]
    when it cannot bind the limit. *)
Definition select (where_status : option string) (lim : option Z)
    (tb : table) : result (list Task.t) :=
  let rows :=
    match where_status with
    | Some s => filter (fun r => (Task.status r =? s)%string) tb
    | None => tb
    end in
  let rows := order_by_created_at_desc rows in
  match lim with
  | Some n => if binds n then Ok (limit n rows) else Raise OverflowError
  | None => Ok rows
  end.

End Db.

(** ** The handlers *)

Definition row_to_task (row : Task.t) : Task.t :=
  Task.make (Task.id row) (Task.name row) (Task.status row)
            (Task.created_at row) (Task.completed_at row).

(** [create_task]: [uuid4] is the value of [str(uuid.uuid4())] and [now] the
    reading of [datetime.now()].  The thread it starts is added by
    [World.run]; the handler itself returns right after the insert. *)
Definition create_task (uuid4 : string) (now : Datetime.t)
    (task_data : TaskCreate.t) (tb : Db.table) : result Task.t * Db.table :=
  let task_id := uuid4 in
  let created_at := Datetime.isoformat now in
  let task :=
    Task.make task_id (TaskCreate.name task_data) "running" created_at None in
  match Db.insert task tb with
  | Raise e => (Raise e, tb)
  | Ok tb' => (Ok task, tb')
  end.

(** The body of the thread, after [time.sleep(20)]; [now] is the reading of
    [datetime.now()] when it wakes up. *)
Definition complete_task (task_id : string) (now : Datetime.t)
    (tb : Db.table) : Db.table :=
  let completed_at := Datetime.isoformat now in
  Db.update_by_id
    [(Db.Cstatus, "completed"); (Db.Ccompleted_at, completed_at)] task_id tb.

Definition list_tasks (status : option string) (limit : option Z)
    (tb : Db.table) : result (list Task.t) :=
  let where_status := if Py.truthy_str status then status else None in
  let lim := if Py.truthy_int limit then limit else None in
  match Db.select where_status lim tb with
  | Ok rows => Ok (map row_to_task rows)
  | Raise e => Raise e
  end.

Definition get_task (task_id : string) (tb : Db.table) : result Task.t :=
  match Db.select_by_id task_id tb with
  | None => Raise NotFound
  | Some task => Ok (row_to_task task)
  end.

(** The dict [updates] of [update_task], keys in insertion order. *)
Definition updates_of (now : Datetime.t) (task_data : TaskUpdate.t)
    : list (Db.column * string) :=
  (match TaskUpdate.status task_data with
   | Some s =>
       if Py.truthy_str (Some s) then
         (Db.Cstatus, s) ::
         (if (s =? "completed")%string
          then [(Db.Ccompleted_at, Datetime.isoformat now)]
          else [])
       else []
   | None => []
   end) ++
  (match TaskUpdate.name task_data with
   | Some n => if Py.truthy_str (Some n) then [(Db.Cname, n)] else []
   | None => []
   end).

Definition update_task (task_id : string) (now : Datetime.t)
    (task_data : TaskUpdate.t) (tb : Db.table) : result Task.t * Db.table :=
  match Db.select_by_id task_id tb with
  | None => (Raise NotFound, tb)
  | Some _ =>
      let updates := updates_of now task_data in
      let tb' :=
        if Py.truthy_dict updates
        then Db.update_by_id updates task_id tb
        else tb in
      match Db.select_by_id task_id tb' with
      | None => (Raise TypeError, tb')
      | Some updated_task => (Ok (row_to_task updated_task), tb')
      end
  end.

Definition delete_task (task_id : string) (tb : Db.table)
    : result unit * Db.table :=
  let (tb', rowcount) := Db.delete_by_id task_id tb in
  if rowcount =? 0 then (Raise NotFound, tb') else (Ok tt, tb').

(** ** The running service: table, clocks and sleeping completion threads *)

Module World.

Record t : Type := make {
  db : Db.table;
  (** the threads inside [time.sleep(20)]: the instant each wakes up and
      the [task_id] its closure captured, in the order they were started *)
  sleeping : list (Z * string);
  (** the clock [time.sleep] counts on, in whole seconds *)
  monotonic : Z;
  (** the clock [datetime.now()] reads *)
  wall : Datetime.t;
  (** every value [uuid.uuid4()] has returned so far, latest first *)
  issued : list string
}.

Inductive action : Type :=
| Create (uuid4 : string) (task_data : TaskCreate.t)
| List (status : option string) (limit : option Z)
| Get (task_id : string)
| Update (task_id : string) (task_data : TaskUpdate.t)
| Delete (task_id : string)
| Tick (elapsed : Z) (wall' : Datetime.t)
| Wake (k : nat).

Inductive response : Type :=
| RTask (r : result Task.t)
| RTasks (r : result (list Task.t))
| RNoContent (r : result unit)
| Internal.

Definition delay : Z := 20.

Definition remove_nth {A : Type} (k : nat) (l : list A) : list A :=
  firstn k l ++ skipn (S k) l.

(** What earlier runs of the service leave in the table file: [id] is a
    key and every [created_at] is a formatted clock reading. *)
Definition consistent (tb : Db.table) : Prop :=
  NoDup (map Task.id tb) /\
  forall r, In r tb ->
    exists d, Datetime.valid d /\ Task.created_at r = Datetime.isoformat d.

(** The service starts on the table as it finds it ([init_db] creates the
    table only if it does not exist), with no thread asleep; the ids stored
    are ids [uuid4] has returned. *)
Definition init (wall0 : Datetime.t) (tb : Db.table) : t :=
  make tb [] 0 wall0 (map Task.id tb).

(** One action of the service.  A request is served at the current clock
    readings; [Tick] lets time pass; [Wake k] resumes the [k]-th sleeping
    thread, which runs [complete_task] and ends. *)
Definition run (w : t) (a : action) : t * response :=
  match a with
  | Create uuid4 task_data =>
      let (r, tb') := create_task uuid4 (wall w) task_data (db w) in
      let threads :=
        match r with
        | Ok _ => sleeping w ++ [(monotonic w + delay, uuid4)]
        | Raise _ => sleeping w
        end in
      (make tb' threads (monotonic w) (wall w) (uuid4 :: issued w), RTask r)
  | List status limit =>
      (w, RTasks (list_tasks status limit (db w)))
  | Get task_id =>
      (w, RTask (get_task task_id (db w)))
  | Update task_id task_data =>
      let (r, tb') := update_task task_id (wall w) task_data (db w) in
      (make tb' (sleeping w) (monotonic w) (wall w) (issued w), RTask r)
  | Delete task_id =>
      let (r, tb') := delete_task task_id (db w) in
      (make tb' (sleeping w) (monotonic w) (wall w) (issued w), RNoContent r)
  | Tick elapsed wall' =>
      (make (db w) (sleeping w) (monotonic w + elapsed) wall' (issued w),
       Internal)
  | Wake k =>
      match nth_error (sleeping w) k with
      | Some (_, task_id) =>
          (make (complete_task task_id (wall w) (db w))
                (remove_nth k (sleeping w)) (monotonic w) (wall w)
                (issued w),
           Internal)
      | None => (w, Internal)
      end
  end.

(** When an action can happen: [uuid4] returns a value it has not returned
    before; the sleep clock does not run backwards, while the wall clock may
    show any valid reading; a thread wakes up only once its sleep is over. *)
Definition enabledb (w : t) (a : action) : bool :=
  match a with
  | Create uuid4 _ => negb (existsb (String.eqb uuid4) (issued w))
  | Tick elapsed wall' => (0 <=? elapsed) && Datetime.validb wall'
  | Wake k =>
      match nth_error (sleeping w) k with
      | Some (wake_at, _) => wake_at <=? monotonic w
      | None => false
      end
  | List _ _ | Get _ | Update _ _ | Delete _ => true
  end.

Definition step (w : t) (a : action) : t := fst (run w a).

Inductive reachable : t -> Prop :=
| reachable_init (wall0 : Datetime.t) (tb : Db.table) :
    Datetime.valid wall0 -> consistent tb -> reachable (init wall0 tb)
| reachable_step (w : t) (a : action) :
    reachable w -> enabledb w a = true -> reachable (step w a).

(** Whether an action issues a writing statement (INSERT, UPDATE, DELETE)
    for the id [task_id]. *)
Definition touches (w : t) (task_id : string) (a : action) : bool :=
  match a with
  | Create uuid4 _ => (uuid4 =? task_id)%string
  | Update i _ | Delete i => (i =? task_id)%string
  | Wake k =>
      match nth_error (sleeping w) k with
      | Some (_, i) => (i =? task_id)%string
      | None => false
      end
  | List _ _ | Get _ | Tick _ _ => false
  end.

End World.

(** ** Vocabulary of the statements *)

(** [x] is listed before [y]: [x] was created no earlier than [y]. *)
Definition newest_first (x y : Task.t) : Prop :=
  String.leb (Task.created_at y) (Task.created_at x) = true.

(** The rows a status filter asks for: those with exactly that status. *)
Definition status_matches (status : option string) (r : Task.t) : bool :=
  match status with
  | Some s => (Task.status r =? s)%string
  | None => true
  end.

(** The rows the query built by [list_tasks] keeps: [if status:] adds the
    WHERE clause for a non-empty status only. *)
Definition where_keeps (status : option string) (r : Task.t) : bool :=
  if Py.truthy_str status then status_matches status r else true.

(** The ordered, filtered sequence: what the query of [list_tasks] yields
    before any LIMIT. *)
Definition listing (status : option string) (tb : Db.table) : list Task.t :=
  Db.order_by_created_at_desc (filter (where_keeps status) tb).

(** The limits the driver can bind. *)
Definition in_int64 (n : Z) : Prop := - 2 ^ 63 <= n < 2 ^ 63.

(** No row of the table has this id. *)
Definition absent (task_id : string) (tb : Db.table) : Prop :=
  forall r, In r tb -> Task.id r <> task_id.

(** The row an UPDATE built by [update_task] leaves in place of [r]. *)
Definition apply_updates (now : Datetime.t) (task_data : TaskUpdate.t)
    (r : Task.t) : Task.t :=
  fold_left Db.assign (updates_of now task_data) r.

(** The table [update_task] leaves behind. *)
Definition updated_table (task_id : string) (now : Datetime.t)
    (task_data : TaskUpdate.t) (tb : Db.table) : Db.table :=
  if Py.truthy_dict (updates_of now task_data)
  then Db.update_by_id (updates_of now task_data) task_id tb
  else tb.

(** The invariant of the running service: the wall clock holds a valid
    reading; every [created_at] is a formatted valid reading; the ids of
    rows and of sleeping threads were all returned by [uuid4]; and [id] is a
    key. *)
Record wf (w : World.t) : Prop := {
  wf_wall : Datetime.valid (World.wall w);
  wf_created : forall r, In r (World.db w) ->
    exists d, Datetime.valid d /\ Task.created_at r = Datetime.isoformat d;
  wf_rows_issued : forall r, In r (World.db w) ->
    In (Task.id r) (World.issued w);
  wf_threads_issued : forall wake_at i, In (wake_at, i) (World.sleeping w) ->
    In i (World.issued w);
  wf_primary_key : NoDup (map Task.id (World.db w))
}.

(** Running a list of actions, and whether each was enabled when it ran. *)
Fixpoint run_trace (w : World.t) (tr : list World.action) : World.t :=
  match tr with
  | [] => w
  | a :: tr' => run_trace (World.step w a) tr'
  end.

Fixpoint valid_trace (w : World.t) (tr : list World.action) : bool :=
  match tr with
  | [] => true
  | a :: tr' => World.enabledb w a && valid_trace (World.step w a) tr'
  end.

(** No action of the trace writes the row of [task_id]. *)
Fixpoint untouched (w : World.t) (task_id : string)
    (tr : list World.action) : bool :=
  match tr with
  | [] => true
  | a :: tr' =>
      negb (World.touches w task_id a) &&
      untouched (World.step w a) task_id tr'
  end.

(** No action of the trace deletes [task_id]. *)
Definition never_deleted (task_id : string) (tr : list World.action) : bool :=
  forallb
    (fun a =>
       match a with
       | World.Delete i => negb (i =? task_id)%string
       | _ => true
       end)
    tr.

(** The ids of the tasks a trace created, latest first. *)
Fixpoint created_ids (acc : list string) (tr : list World.action)
    : list string :=
  match tr with
  | [] => acc
  | World.Create uuid4 _ :: tr' => created_ids (uuid4 :: acc) tr'
  | _ :: tr' => created_ids acc tr'
  end.

(** ** Startup, and further vocabulary *)

(** [init_db]: [file] is the table found in [tasks.db], if any; CREATE
    TABLE IF NOT EXISTS makes an empty table only when there is none. *)
Definition init_db (file : option Db.table) : Db.table :=
  match file with
  | Some tb => tb
  | None => []
  end.

(** [x] is listed before [y], and both keys are formatted clock readings,
    that of [y] not after that of [x]. *)
Definition chronological (x y : Task.t) : Prop :=
  exists dx dy,
    Datetime.valid dx /\ Datetime.valid dy
    /\ Task.created_at x = Datetime.isoformat dx
    /\ Task.created_at y = Datetime.isoformat dy
    /\ Datetime.le dy dx.

(** [x] is stored before [y] and was created earlier. *)
Definition strictly_older (x y : Task.t) : Prop :=
  String.ltb (Task.created_at x) (Task.created_at y) = true.

(** Every row with status ["completed"] has a [completed_at]. *)
Definition completed_has_time (tb : Db.table) : Prop :=
  forall r, In r tb -> Task.status r = "completed" ->
            Task.completed_at r <> None.

(** No row has the empty status. *)
Definition status_nonempty (tb : Db.table) : Prop :=
  forall r, In r tb -> Task.status r <> "".

(** No request of the trace updates or deletes [task_id]. *)
Definition no_request_writes (task_id : string) (tr : list World.action)
    : bool :=
  forallb
    (fun a =>
       match a with
       | World.Update i _ | World.Delete i => negb (i =? task_id)%string
       | _ => true
       end)
    tr.

(** ** A sample run, used to exercise the statements *)

Module Sample.

Import World.

Definition t0 : Datetime.t := Datetime.make 2024 5 17 9 30 0 0.
Definition t1 : Datetime.t := Datetime.make 2024 5 17 9 30 5 120000.
Definition t2 : Datetime.t := Datetime.make 2024 5 17 9 30 9 0.
Definition t3 : Datetime.t := Datetime.make 2024 5 17 9 30 20 4500.

(** Task "a" is created at [t0]. *)
Definition trace_a : list action :=
  [Create "a" (TaskCreate.make (Some "build"))].

(** Tasks "a", "b", "c" are created in sequence, then "b" is set to
    "done". *)
Definition trace_abc : list action :=
  trace_a ++
  [Tick 5 t1; Create "b" (TaskCreate.make None);
   Tick 4 t2; Create "c" (TaskCreate.make (Some "test"));
   Update "b" (TaskUpdate.make (Some "done") None)].

(** Twenty seconds pass after the creation of "a". *)
Definition trace_a_late : list action := trace_a ++ [Tick 20 t3].

Definition w_a : World.t := run_trace (init t0 []) trace_a.
Definition w_abc : World.t := run_trace (init t0 []) trace_abc.
Definition w_a_late : World.t := run_trace (init t0 []) trace_a_late.

(** The end of daylight saving time: twenty seconds after 01:59:50 the
    local clock shows 01:00:10. *)
Definition dst_before : Datetime.t := Datetime.make 2024 11 3 1 59 50 0.
Definition dst_after : Datetime.t := Datetime.make 2024 11 3 1 0 10 0.

Definition trace_dst : list action :=
  [Create "a" (TaskCreate.make (Some "build")); Tick 20 dst_after; Wake 0].


Definition row_a : Task.t :=
  Task.make "a" (Some "build") "running" "2024-05-17T09:30:00" None.
Definition row_b : Task.t :=
  Task.make "b" None "done" "2024-05-17T09:30:05.120000" None.
Definition row_c : Task.t :=
  Task.make "c" (Some "test") "running" "2024-05-17T09:30:09" None.

End Sample.

(** * Properties *)

(** ** Evaluation of the formatter *)

Example isoformat_with_fraction :
  Datetime.isoformat (Datetime.make 2024 1 2 3 4 5 678)
  = "2024-01-02T03:04:05.000678".
Proof. reflexivity. Qed.

Example sample_table :
  World.db Sample.w_abc = [Sample.row_a; Sample.row_b; Sample.row_c].
Proof. reflexivity. Qed.

Example sample_listing :
  list_tasks None (Some 2) (World.db Sample.w_abc)
  = Ok [Sample.row_c; Sample.row_b].
Proof. reflexivity. Qed.

Example isoformat_whole_second :
  Datetime.isoformat (Datetime.make 987 12 31 23 59 59 0)
  = "0987-12-31T23:59:59".
Proof. reflexivity. Qed.

(** ** The byte order on strings *)

Section StringOrder.

Lemma ascii_compare_refl (c : ascii) : Ascii.compare c c = Eq.
Proof. unfold Ascii.compare. apply N.compare_refl. Qed.

Lemma string_compare_refl (s : string) : String.compare s s = Eq.
Proof.
  induction s as [|c s IH]; simpl; [reflexivity|].
  now rewrite ascii_compare_refl.
Qed.

Lemma string_compare_cons (c : ascii) (s s' : string) :
  String.compare (String c s) (String c s') = String.compare s s'.
Proof. simpl. now rewrite ascii_compare_refl. Qed.

Lemma ascii_compare_lt_trans (a b c : ascii) :
  Ascii.compare a b = Lt -> Ascii.compare b c = Lt -> Ascii.compare a c = Lt.
Proof.
  unfold Ascii.compare. rewrite !N.compare_lt_iff. apply N.lt_trans.
Qed.

Lemma string_compare_lt_trans (a : string) :
  forall b c, String.compare a b = Lt -> String.compare b c = Lt ->
              String.compare a c = Lt.
Proof.
  induction a as [|x a IH]; intros [|y b] [|z c]; simpl; try congruence.
  destruct (Ascii.compare x y) eqn:Hxy; try discriminate;
    destruct (Ascii.compare y z) eqn:Hyz; try discriminate; intros H1 H2.
  - apply Ascii.compare_eq_iff in Hxy, Hyz. subst.
    rewrite ascii_compare_refl. eauto.
  - apply Ascii.compare_eq_iff in Hxy. subst. now rewrite Hyz.
  - apply Ascii.compare_eq_iff in Hyz. subst. now rewrite Hxy.
  - now rewrite (ascii_compare_lt_trans _ _ _ Hxy Hyz).
Qed.

Lemma append_empty_r (s : string) : (s ++ "")%string = s.
Proof. induction s as [|c s IH]; simpl; now rewrite ?IH. Qed.

Lemma string_leb_refl (s : string) : String.leb s s = true.
Proof. unfold String.leb. now rewrite string_compare_refl. Qed.

Lemma string_leb_trans (a b c : string) :
  String.leb a b = true -> String.leb b c = true -> String.leb a c = true.
Proof.
  unfold String.leb.
  destruct (String.compare a b) eqn:Hab; try discriminate;
    destruct (String.compare b c) eqn:Hbc; try discriminate; intros _ _.
  - apply String.compare_eq_iff in Hab, Hbc. subst.
    now rewrite string_compare_refl.
  - apply String.compare_eq_iff in Hab. subst. now rewrite Hbc.
  - apply String.compare_eq_iff in Hbc. subst. now rewrite Hab.
  - now rewrite (string_compare_lt_trans _ _ _ Hab Hbc).
Qed.

Lemma string_ltb_false_leb (a b : string) :
  String.ltb a b = false -> String.leb b a = true.
Proof.
  unfold String.ltb, String.leb. rewrite (String.compare_antisym b a).
  now destruct (String.compare a b).
Qed.

Lemma string_ltb_leb (a b : string) :
  String.ltb a b = true -> String.leb a b = true.
Proof.
  unfold String.ltb, String.leb. now destruct (String.compare a b).
Qed.

End StringOrder.

(** ** [isoformat] turns the order of time into the byte order of strings *)

Section Isoformat.

Import Datetime.

Lemma digit_compare (a b : Z) :
  0 <= a <= 9 -> 0 <= b <= 9 ->
  Ascii.compare (digit a) (digit b) = (a ?= b).
Proof.
  intros Ha Hb. unfold Ascii.compare, digit.
  rewrite !N_ascii_embedding by lia.
  rewrite (Z2N.inj_compare (48 + a) (48 + b)) by lia.
  apply Z.add_compare_mono_l.
Qed.

Lemma compare_split (p n m : Z) :
  0 < p ->
  (n ?= m) = lex (n / p ?= m / p) (n mod p ?= m mod p).
Proof.
  intros Hp.
  pose proof (Z.div_mod n p ltac:(lia)) as Hn.
  pose proof (Z.div_mod m p ltac:(lia)) as Hm.
  pose proof (Z.mod_pos_bound n p Hp) as Bn.
  pose proof (Z.mod_pos_bound m p Hp) as Bm.
  destruct (Z.compare_spec (n / p) (m / p)) as [E|L|G]; simpl.
  - rewrite Hn, Hm at 1. rewrite E. apply Z.add_compare_mono_l.
  - apply Z.compare_lt_iff. nia.
  - apply Z.compare_gt_iff. nia.
Qed.

Lemma zfill_compare (w : nat) :
  forall (n m : Z) (s s' : string),
    0 <= n < 10 ^ Z.of_nat w -> 0 <= m < 10 ^ Z.of_nat w ->
    String.compare (zfill w n ++ s) (zfill w m ++ s')
    = lex (n ?= m) (String.compare s s').
Proof.
  induction w as [|w IH]; intros n m s s' Hn Hm.
  - simpl in *. replace n with 0 by lia. replace m with 0 by lia.
    reflexivity.
  - rewrite Nat2Z.inj_succ, Z.pow_succ_r in Hn, Hm by lia.
    assert (Hp : 0 < 10 ^ Z.of_nat w) by (apply Z.pow_pos_nonneg; lia).
    cbn [zfill String.append String.compare].
    rewrite digit_compare.
    + rewrite (compare_split (10 ^ Z.of_nat w) n m Hp).
      destruct (n / 10 ^ Z.of_nat w ?= m / 10 ^ Z.of_nat w); simpl;
        try reflexivity.
      apply IH; apply Z.mod_pos_bound; lia.
    + split; [apply Z.div_pos; lia|].
      assert (n / 10 ^ Z.of_nat w < 10); [|lia].
      apply Z.div_lt_upper_bound; lia.
    + split; [apply Z.div_pos; lia|].
      assert (m / 10 ^ Z.of_nat w < 10); [|lia].
      apply Z.div_lt_upper_bound; lia.
Qed.

Lemma valid_bounds (d : t) :
  valid d ->
  (1 <= year d <= 9999 /\ 1 <= month d <= 12 /\ 1 <= day d <= 31) /\
  (0 <= hour d <= 23 /\ 0 <= minute d <= 59 /\ 0 <= second d <= 59) /\
  0 <= microsecond d <= 999999.
Proof.
  unfold valid, validb, in_range.
  rewrite !andb_true_iff, !Z.leb_le. tauto.
Qed.

Lemma separator_compare (c : ascii) (s s' : string) :
  String.compare (String c "" ++ s) (String c "" ++ s')
  = String.compare s s'.
Proof. apply string_compare_cons. Qed.

Lemma fraction_compare (a b : Z) :
  0 <= a <= 999999 -> 0 <= b <= 999999 ->
  String.compare
    (if (a =? 0)%Z then "" else "." ++ zfill 6 a)%string
    (if (b =? 0)%Z then "" else "." ++ zfill 6 b)%string
  = (a ?= b).
Proof.
  intros Ha Hb.
  destruct (Z.eqb_spec a 0) as [->|Na], (Z.eqb_spec b 0) as [->|Nb].
  - reflexivity.
  - cbn [String.append String.compare]. symmetry.
    apply Z.compare_lt_iff. lia.
  - cbn [String.append String.compare]. symmetry.
    apply Z.compare_gt_iff. lia.
  - rewrite separator_compare.
    pose proof (zfill_compare 6 a b "" "") as H.
    rewrite !append_empty_r in H.
    rewrite H by (cbn; lia). simpl. now destruct (a ?= b).
Qed.

(** Byte-wise comparison of two formatted readings is the comparison of
    the readings. *)
Lemma isoformat_compare (a b : t) :
  valid a -> valid b ->
  String.compare (isoformat a) (isoformat b) = compare a b.
Proof.
  intros Va Vb.
  apply valid_bounds in Va, Vb.
  unfold isoformat, compare.
  rewrite zfill_compare by (cbn; lia). f_equal.
  rewrite separator_compare, zfill_compare by (cbn; lia). f_equal.
  rewrite separator_compare, zfill_compare by (cbn; lia). f_equal.
  rewrite separator_compare, zfill_compare by (cbn; lia). f_equal.
  rewrite separator_compare, zfill_compare by (cbn; lia). f_equal.
  rewrite separator_compare, zfill_compare by (cbn; lia). f_equal.
  apply fraction_compare; lia.
Qed.

Lemma isoformat_leb (a b : t) :
  valid a -> valid b ->
  String.leb (isoformat a) (isoformat b) = Datetime.leb a b.
Proof.
  intros Va Vb. unfold String.leb, Datetime.leb.
  now rewrite isoformat_compare.
Qed.

Lemma datetime_leb_refl (a : t) : Datetime.leb a a = true.
Proof.
  unfold Datetime.leb, compare. now rewrite !Z.compare_refl.
Qed.

End Isoformat.

(** ** The SQL statements *)

Section Ordering.

Import Db.

#[local] Instance newest_first_trans : Transitive newest_first.
Proof. intros x y z Hxy Hyz. exact (string_leb_trans _ _ _ Hyz Hxy). Qed.

Lemma insert_desc_perm (r : Task.t) (rows : list Task.t) :
  Permutation (insert_desc r rows) (r :: rows).
Proof.
  induction rows as [|x rows IH]; simpl; [reflexivity|].
  destruct (String.ltb _ _); [|reflexivity].
  rewrite IH. apply perm_swap.
Qed.

Lemma order_by_perm (rows : list Task.t) :
  Permutation (order_by_created_at_desc rows) rows.
Proof.
  induction rows as [|x rows IH]; simpl; [reflexivity|].
  rewrite insert_desc_perm. now constructor.
Qed.

Lemma insert_desc_hd (r x : Task.t) (rows : list Task.t) :
  newest_first x r -> HdRel newest_first x rows ->
  HdRel newest_first x (insert_desc r rows).
Proof.
  intros Hxr Hhd. destruct rows as [|y rows]; simpl.
  - now constructor.
  - destruct (String.ltb _ _); constructor; trivial.
    now inversion Hhd.
Qed.

Lemma insert_desc_sorted (r : Task.t) (rows : list Task.t) :
  Sorted newest_first rows -> Sorted newest_first (insert_desc r rows).
Proof.
  induction rows as [|x rows IH]; intros Hs; simpl.
  - repeat constructor.
  - inversion Hs as [|? ? Hs' Hhd]; subst.
    destruct (String.ltb _ _) eqn:E.
    + constructor; [now apply IH|].
      apply insert_desc_hd; trivial. now apply string_ltb_leb.
    + constructor; trivial. constructor.
      now apply string_ltb_false_leb.
Qed.

Lemma order_by_sorted (rows : list Task.t) :
  StronglySorted newest_first (order_by_created_at_desc rows).
Proof.
  apply Sorted_StronglySorted; [exact newest_first_trans|].
  induction rows as [|x rows IH]; simpl; [constructor|].
  now apply insert_desc_sorted.
Qed.

Lemma strongly_sorted_prefix (l1 l2 : list Task.t) :
  StronglySorted newest_first (l1 ++ l2) -> StronglySorted newest_first l1.
Proof.
  induction l1 as [|a l1 IH]; simpl; intros Hs; [constructor|].
  inversion Hs as [|? ? Hs' Hall]; subst. constructor; [now apply IH|].
  rewrite Forall_forall in *. intros y Hy. apply Hall, in_or_app. now left.
Qed.

Lemma firstn_strongly_sorted (n : nat) (rows : list Task.t) :
  StronglySorted newest_first rows ->
  StronglySorted newest_first (firstn n rows).
Proof.
  intros Hs. rewrite <- (firstn_skipn n rows) in Hs.
  now apply strongly_sorted_prefix in Hs.
Qed.

Lemma strongly_sorted_app (l1 l2 : list Task.t) :
  StronglySorted newest_first (l1 ++ l2) ->
  forall x y, In x l1 -> In y l2 -> newest_first x y.
Proof.
  induction l1 as [|a l1 IH]; simpl; intros Hs x y Hx Hy; [easy|].
  inversion Hs as [|? ? Hs' Hall]; subst.
  destruct Hx as [->|Hx]; [|now apply IH].
  rewrite Forall_forall in Hall. apply Hall, in_or_app. now right.
Qed.

Lemma limit_strongly_sorted (n : Z) (rows : list Task.t) :
  StronglySorted newest_first rows ->
  StronglySorted newest_first (limit n rows).
Proof.
  intros Hs. unfold limit. destruct (n <? 0); trivial.
  now apply firstn_strongly_sorted.
Qed.

Lemma row_to_task_id (r : Task.t) : row_to_task r = r.
Proof. now destruct r. Qed.

Lemma map_row_to_task (rows : list Task.t) : map row_to_task rows = rows.
Proof.
  induction rows as [|r rows IH]; simpl; [reflexivity|].
  now rewrite row_to_task_id, IH.
Qed.

(** The handler without a LIMIT clause: the matching rows, sorted. *)
Lemma list_tasks_unlimited (status : option string) (tb : table) :
  list_tasks status None tb = Ok (listing status tb).
Proof.
  assert (Hall : filter (fun _ : Task.t => true) tb = tb)
    by (induction tb as [|r tb IH]; simpl; now rewrite ?IH).
  unfold list_tasks, select, listing, where_keeps, status_matches.
  destruct status as [s|]; simpl; [|now rewrite map_row_to_task, Hall].
  destruct (String.eqb_spec s ""); simpl; rewrite map_row_to_task;
    [now rewrite Hall|reflexivity].
Qed.

Lemma where_keeps_matches (status : option string) (r : Task.t) :
  status <> Some "" -> where_keeps status r = status_matches status r.
Proof.
  intros Hne. unfold where_keeps. destruct status as [s|]; simpl; trivial.
  destruct (String.eqb_spec s ""); simpl; congruence.
Qed.

(** The handler with a limit: no LIMIT clause for 0, a bound parameter
    otherwise. *)
Lemma list_tasks_limited (status : option string) (n : Z) (tb : table) :
  list_tasks status (Some n) tb
  = if n =? 0 then Ok (listing status tb)
    else if binds n then Ok (limit n (listing status tb))
    else Raise OverflowError.
Proof.
  destruct (Z.eqb_spec n 0) as [->|N].
  - exact (list_tasks_unlimited status tb).
  - pose proof (list_tasks_unlimited status tb) as E.
    unfold list_tasks, select in *. simpl in *.
    destruct (Z.eqb_spec n 0); [contradiction|]. simpl.
    destruct (binds n); [|reflexivity].
    injection E as E. rewrite !map_row_to_task in *. now rewrite E.
Qed.

End Ordering.

(** ** Listing *)

Section Listing.

Import Db.

Lemma in_firstn (n : nat) (rows : list Task.t) (r : Task.t) :
  In r (firstn n rows) -> In r rows.
Proof.
  intros H. rewrite <- (firstn_skipn n rows). apply in_or_app. now left.
Qed.

Lemma in_limit (n : Z) (rows : list Task.t) (r : Task.t) :
  In r (limit n rows) -> In r rows.
Proof. unfold limit. destruct (n <? 0); trivial. apply in_firstn. Qed.

Lemma binds_in_int64 (n : Z) : binds n = true <-> in_int64 n.
Proof.
  unfold binds, in_int64. rewrite andb_true_iff, Z.leb_le, Z.ltb_lt. tauto.
Qed.

Lemma listing_perm (status : option string) (tb : table) :
  status <> Some "" ->
  Permutation (listing status tb) (filter (status_matches status) tb).
Proof.
  intros Hne. unfold listing.
  rewrite (filter_ext _ _ (fun r => where_keeps_matches status r Hne)).
  apply order_by_perm.
Qed.

Lemma listing_sorted (status : option string) (tb : table) :
  StronglySorted newest_first (listing status tb).
Proof. apply order_by_sorted. Qed.

(** What [list_tasks] returns, when it returns, is the ordered, filtered
    sequence or a limited part of it. *)
Lemma list_tasks_ok (status : option string) (limit : option Z)
    (tb : table) (l : list Task.t) :
  list_tasks status limit tb = Ok l ->
  l = listing status tb \/ exists n, l = Db.limit n (listing status tb).
Proof.
  destruct limit as [n|].
  - rewrite list_tasks_limited. destruct (n =? 0); [intros [= <-]; auto|].
    destruct (binds n); [intros [= <-]; eauto|discriminate].
  - rewrite list_tasks_unlimited. intros [= <-]. auto.
Qed.

Lemma list_tasks_prefix (status : option string) (limit : option Z)
    (tb : table) (l : list Task.t) (r : Task.t) :
  list_tasks status limit tb = Ok l -> In r l -> In r (listing status tb).
Proof.
  intros E Hr. apply list_tasks_ok in E as [->|(n & ->)]; trivial.
  now apply in_limit in Hr.
Qed.

Lemma list_tasks_strongly_sorted (status : option string) (limit : option Z)
    (tb : table) (l : list Task.t) :
  list_tasks status limit tb = Ok l -> StronglySorted newest_first l.
Proof.
  intros E. apply list_tasks_ok in E as [->|(n & ->)].
  - apply listing_sorted.
  - apply limit_strongly_sorted, listing_sorted.
Qed.

Lemma limit_positive (n : Z) (rows : list Task.t) :
  0 < n -> limit n rows = firstn (Z.to_nat n) rows.
Proof. intros Hn. unfold limit. now destruct (Z.ltb_spec n 0); [lia|]. Qed.

Lemma limit_negative (n : Z) (rows : list Task.t) :
  n < 0 -> limit n rows = rows.
Proof. intros Hn. unfold limit. now destruct (Z.ltb_spec n 0); [|lia]. Qed.

(** With a limit the driver can bind, [list_tasks] returns. *)
Lemma list_tasks_returns (status : option string) (limit : option Z)
    (tb : table) :
  (forall n, limit = Some n -> in_int64 n) ->
  exists l, list_tasks status limit tb = Ok l.
Proof.
  intros Hr. destruct limit as [n|].
  - rewrite list_tasks_limited. destruct (n =? 0); [eauto|].
    rewrite (proj2 (binds_in_int64 n) (Hr n eq_refl)). eauto.
  - rewrite list_tasks_unlimited. eauto.
Qed.

Lemma list_tasks_out_of_range (status : option string) (n : Z) (tb : table) :
  ~ in_int64 n -> list_tasks status (Some n) tb = Raise OverflowError.
Proof.
  intros Hn. rewrite list_tasks_limited.
  destruct (Z.eqb_spec n 0) as [->|N]; [destruct Hn; unfold in_int64; lia|].
  destruct (binds n) eqn:E; trivial. now apply binds_in_int64 in E.
Qed.

End Listing.

(** C1, as amended.  For every table and every call of [list_tasks] whose
    limit, if one is given, fits a signed 64-bit integer: the call returns
    a list, no error; the list is ordered by [created_at] descending, which
    for keys written by [isoformat] is the order of time, most recent
    first; with no status filter, or with a non-empty one, the unlimited
    result holds exactly the rows with that status, each once, so with such
    a filter only rows with exactly that status appear, and when no row
    matches the result is the empty list; with a limit [n >= 1] the result
    is the first [n] rows of the ordered, filtered sequence, so it has at
    most [n] rows and no row left out is more recent than a row returned;
    with a negative limit it is the whole ordered, filtered sequence.  A
    limit that does not fit 64 bits makes the call raise
    [OverflowError]. *)
Theorem list_tasks_ordered_filtered_capped
    (tb : Db.table) (status : option string) (limit : option Z) :
  ((forall n, limit = Some n -> in_int64 n) ->
   exists result full,
     list_tasks status limit tb = Ok result
     /\ list_tasks status None tb = Ok full
     /\ StronglySorted newest_first result
     /\ (forall x y dx dy,
         newest_first x y -> Datetime.valid dx -> Datetime.valid dy ->
         Task.created_at x = Datetime.isoformat dx ->
         Task.created_at y = Datetime.isoformat dy ->
         Datetime.le dy dx)
     /\ (status <> Some "" ->
         Permutation full (filter (status_matches status) tb)
         /\ (forall s, status = Some s ->
             forall r, In r result -> Task.status r = s)
         /\ ((forall r, In r tb -> status_matches status r = false) ->
             result = []))
     /\ (limit = None -> result = full)
     /\ (forall n, limit = Some n -> 0 < n ->
         result = firstn (Z.to_nat n) full
         /\ (List.length result <= Z.to_nat n)%nat
         /\ forall x y, In x result -> In y (skipn (Z.to_nat n) full) ->
                        newest_first x y)
     /\ (forall n, limit = Some n -> n < 0 -> result = full))
  /\ (forall n, limit = Some n -> ~ in_int64 n ->
      list_tasks status limit tb = Raise OverflowError).
Proof.
  split; [|intros n -> Hn; now apply list_tasks_out_of_range].
  intros Hrange.
  destruct (list_tasks_returns status limit tb Hrange) as (result & E).
  exists result, (listing status tb).
  split; [exact E|]. split; [apply list_tasks_unlimited|].
  split; [now apply (list_tasks_strongly_sorted status limit tb)|].
  split; [|split; [|split; [|split]]].
  - unfold newest_first, Datetime.le. intros x y dx dy H Vx Vy Ex Ey.
    now rewrite Ex, Ey, isoformat_leb in H.
  - intros Hne. split; [now apply listing_perm|]. split.
    + intros s -> r Hr. apply (list_tasks_prefix _ _ _ _ _ E) in Hr.
      apply (Permutation_in _ (listing_perm _ _ Hne)) in Hr.
      apply filter_In in Hr as [_ Hm]. now apply String.eqb_eq.
    + intros Hnone.
      assert (F : filter (status_matches status) tb = []).
      { clear - Hnone. induction tb as [|r tb IH]; simpl; trivial.
        rewrite (Hnone r) by now left. apply IH.
        intros r' Hr'. apply Hnone. now right. }
      assert (Hfull : listing status tb = []).
      { pose proof (listing_perm status tb Hne) as P. rewrite F in P.
        now apply Permutation_sym, Permutation_nil in P. }
      destruct result as [|r l]; trivial.
      assert (Hr : In r (listing status tb))
        by (apply (list_tasks_prefix _ _ _ _ _ E); now left).
      rewrite Hfull in Hr. destruct Hr.
  - intros ->. rewrite list_tasks_unlimited in E. now injection E.
  - intros n -> Hn. rewrite list_tasks_limited in E.
    destruct (Z.eqb_spec n 0); [lia|].
    rewrite (proj2 (binds_in_int64 n) (Hrange n eq_refl)) in E.
    injection E as <-. rewrite limit_positive by trivial.
    split; [reflexivity|]. split; [apply firstn_le_length|].
    apply strongly_sorted_app. rewrite firstn_skipn. apply listing_sorted.
  - intros n -> Hn. rewrite list_tasks_limited in E.
    destruct (Z.eqb_spec n 0); [lia|].
    rewrite (proj2 (binds_in_int64 n) (Hrange n eq_refl)) in E.
    injection E as <-. now apply limit_negative.
Qed.

(** C9, as amended.  A negative limit that fits a signed 64-bit integer
    does not cap the result: [list_tasks] returns what the same call
    returns without a limit, which (the status filter absent or non-empty)
    is every row with that status.  A negative limit that does not fit
    makes the call raise [OverflowError]. *)
Theorem list_tasks_negative_limit
    (tb : Db.table) (status : option string) (n : Z) :
  n < 0 ->
  (in_int64 n ->
   list_tasks status (Some n) tb = list_tasks status None tb
   /\ exists l,
        list_tasks status (Some n) tb = Ok l
        /\ (status <> Some "" ->
            Permutation l (filter (status_matches status) tb)))
  /\ (~ in_int64 n -> list_tasks status (Some n) tb = Raise OverflowError).
Proof.
  intros Hn. split; [|now apply list_tasks_out_of_range].
  intros Hr.
  assert (E : list_tasks status (Some n) tb = Ok (listing status tb)).
  { rewrite list_tasks_limited. destruct (Z.eqb_spec n 0); [lia|].
    rewrite (proj2 (binds_in_int64 n) Hr). now rewrite limit_negative. }
  split; [now rewrite E, list_tasks_unlimited|].
  exists (listing status tb). split; trivial. apply listing_perm.
Qed.

(** ** Point lookups after each statement *)

Section Lookup.

Import Db.

Lemma has_id_true (task_id : string) (r : Task.t) :
  has_id task_id r = true <-> Task.id r = task_id.
Proof. apply String.eqb_eq. Qed.

Lemma has_id_false (task_id : string) (r : Task.t) :
  has_id task_id r = false <-> Task.id r <> task_id.
Proof. apply String.eqb_neq. Qed.

Lemma select_by_id_some (task_id : string) (tb : table) (r : Task.t) :
  select_by_id task_id tb = Some r -> In r tb /\ Task.id r = task_id.
Proof.
  intros H. apply find_some in H as [Hin Hid].
  split; trivial. now apply has_id_true.
Qed.

Lemma select_by_id_none (task_id : string) (tb : table) :
  select_by_id task_id tb = None <-> absent task_id tb.
Proof.
  unfold absent, select_by_id. split.
  - intros H r Hr. apply has_id_false. exact (find_none _ _ H r Hr).
  - intros H. induction tb as [|r tb IH]; simpl; trivial.
    destruct (has_id task_id r) eqn:E.
    + apply has_id_true in E. now destruct (H r (or_introl eq_refl)).
    + apply IH. intros r' Hr'. apply H. now right.
Qed.

Lemma select_by_id_present (task_id : string) (tb : table) :
  (exists r, In r tb /\ Task.id r = task_id) ->
  exists r, select_by_id task_id tb = Some r.
Proof.
  intros (r & Hin & Hid).
  destruct (select_by_id task_id tb) as [x|] eqn:E; [now exists x|].
  rewrite select_by_id_none in E. now destruct (E r Hin).
Qed.

Lemma select_by_id_app (task_id : string) (tb tb' : table) :
  select_by_id task_id (tb ++ tb')
  = match select_by_id task_id tb with
    | Some r => Some r
    | None => select_by_id task_id tb'
    end.
Proof.
  unfold select_by_id. induction tb as [|r tb IH]; simpl; trivial.
  now destruct (has_id task_id r).
Qed.

(** An UPDATE whose assignments keep [id] rewrites the row a lookup finds
    and no other. *)
Lemma select_by_id_update (f : Task.t -> Task.t) (i j : string) (tb : table) :
  (forall r, Task.id (f r) = Task.id r) ->
  select_by_id j (map (fun r => if has_id i r then f r else r) tb)
  = option_map (fun r => if has_id i r then f r else r) (select_by_id j tb).
Proof.
  intros Hf. unfold select_by_id.
  induction tb as [|r tb IH]; simpl; trivial.
  assert (E : has_id j (if has_id i r then f r else r) = has_id j r).
  { unfold has_id. destruct (Task.id r =? i)%string; now rewrite ?Hf. }
  rewrite E. now destruct (has_id j r).
Qed.

Lemma select_by_id_delete (i j : string) (tb : table) :
  select_by_id j (fst (delete_by_id i tb))
  = if (i =? j)%string then None else select_by_id j tb.
Proof.
  unfold select_by_id, delete_by_id. simpl.
  induction tb as [|r tb IH]; simpl.
  - now destruct (i =? j)%string.
  - destruct (has_id i r) eqn:Ei; simpl.
    + rewrite IH. apply has_id_true in Ei.
      destruct (String.eqb_spec i j) as [->|N]; trivial.
      assert (has_id j r = false) as -> by (apply has_id_false; congruence).
      reflexivity.
    + destruct (has_id j r) eqn:Ej; trivial.
      apply has_id_true in Ej. apply has_id_false in Ei.
      destruct (String.eqb_spec i j) as [->|N]; trivial. contradiction.
Qed.

Lemma rowcount_zero (task_id : string) (tb : table) :
  snd (delete_by_id task_id tb) = 0 <-> select_by_id task_id tb = None.
Proof.
  unfold delete_by_id, select_by_id. simpl.
  induction tb as [|r tb IH]; simpl; [tauto|].
  destruct (has_id task_id r); simpl; [|exact IH].
  split; [lia|discriminate].
Qed.

Lemma delete_absent (task_id : string) (tb : table) :
  select_by_id task_id tb = None -> fst (delete_by_id task_id tb) = tb.
Proof.
  rewrite select_by_id_none. unfold delete_by_id. simpl. intros H.
  induction tb as [|r tb IH]; simpl; trivial.
  assert (has_id task_id r = false) as ->
    by (apply has_id_false, H; now left).
  simpl. f_equal. apply IH. intros r' Hr'. apply H. now right.
Qed.

Lemma update_absent (sets : list (column * string)) (task_id : string)
    (tb : table) :
  select_by_id task_id tb = None -> update_by_id sets task_id tb = tb.
Proof.
  rewrite select_by_id_none. unfold update_by_id. intros H.
  induction tb as [|r tb IH]; simpl; trivial.
  assert (has_id task_id r = false) as ->
    by (apply has_id_false, H; now left).
  f_equal. apply IH. intros r' Hr'. apply H. now right.
Qed.

End Lookup.

(** ** Updating *)

Section Updating.

Import Db.

Lemma apply_updates_fields (now : Datetime.t) (task_data : TaskUpdate.t)
    (r : Task.t) :
  let r' := apply_updates now task_data r in
  Task.id r' = Task.id r
  /\ Task.created_at r' = Task.created_at r
  /\ Task.status r'
     = match TaskUpdate.status task_data with
       | Some s => if (s =? "")%string then Task.status r else s
       | None => Task.status r
       end
  /\ Task.completed_at r'
     = match TaskUpdate.status task_data with
       | Some s => if (s =? "completed")%string
                   then Some (Datetime.isoformat now)
                   else Task.completed_at r
       | None => Task.completed_at r
       end
  /\ Task.name r'
     = match TaskUpdate.name task_data with
       | Some n => if (n =? "")%string then Task.name r else Some n
       | None => Task.name r
       end.
Proof.
  destruct task_data as [[s|] [n|]]; unfold apply_updates, updates_of;
    cbn [TaskUpdate.status TaskUpdate.name Py.truthy_str].
  all: try destruct (String.eqb_spec s "") as [->|Hs];
       try destruct (String.eqb_spec n "") as [->|Hn];
       try destruct (s =? "completed")%string; simpl; auto.
Qed.

Lemma apply_updates_id (now : Datetime.t) (task_data : TaskUpdate.t)
    (r : Task.t) :
  Task.id (apply_updates now task_data r) = Task.id r.
Proof. apply apply_updates_fields. Qed.

Lemma apply_updates_empty (now : Datetime.t) (task_data : TaskUpdate.t)
    (r : Task.t) :
  Py.truthy_dict (updates_of now task_data) = false ->
  apply_updates now task_data r = r.
Proof.
  unfold apply_updates.
  destruct (updates_of now task_data); [reflexivity|discriminate].
Qed.

Lemma select_by_id_updated (i j : string) (now : Datetime.t)
    (task_data : TaskUpdate.t) (tb : table) :
  select_by_id j (updated_table i now task_data tb)
  = option_map
      (fun r => if has_id i r then apply_updates now task_data r else r)
      (select_by_id j tb).
Proof.
  unfold updated_table.
  destruct (Py.truthy_dict (updates_of now task_data)) eqn:E.
  - apply (select_by_id_update (apply_updates now task_data)).
    apply apply_updates_id.
  - destruct (select_by_id j tb) as [r|]; simpl; trivial.
    rewrite apply_updates_empty by trivial. now destruct (has_id i r).
Qed.

(** On an existing id, [update_task] returns the rewritten row; the final
    SELECT always finds it. *)
Lemma update_task_found (task_id : string) (now : Datetime.t)
    (task_data : TaskUpdate.t) (tb : table) (old : Task.t) :
  select_by_id task_id tb = Some old ->
  update_task task_id now task_data tb
  = (Ok (apply_updates now task_data old),
     updated_table task_id now task_data tb).
Proof.
  intros Hold. unfold update_task. rewrite Hold.
  fold (updated_table task_id now task_data tb).
  rewrite select_by_id_updated, Hold. simpl.
  apply select_by_id_some in Hold as [_ Hid].
  apply has_id_true in Hid. now rewrite Hid, row_to_task_id.
Qed.

Lemma get_task_updated (task_id : string) (now : Datetime.t)
    (task_data : TaskUpdate.t) (tb : table) (old : Task.t) :
  select_by_id task_id tb = Some old ->
  get_task task_id (updated_table task_id now task_data tb)
  = Ok (apply_updates now task_data old).
Proof.
  intros Hold. unfold get_task. rewrite select_by_id_updated, Hold. simpl.
  apply select_by_id_some in Hold as [_ Hid].
  apply has_id_true in Hid. now rewrite Hid, row_to_task_id.
Qed.

Lemma update_task_absent (task_id : string) (now : Datetime.t)
    (task_data : TaskUpdate.t) (tb : table) :
  select_by_id task_id tb = None ->
  update_task task_id now task_data tb = (Raise NotFound, tb).
Proof. intros H. unfold update_task. now rewrite H. Qed.

Lemma updated_table_other (i j : string) (now : Datetime.t)
    (task_data : TaskUpdate.t) (tb : table) :
  j <> i ->
  select_by_id j (updated_table i now task_data tb) = select_by_id j tb.
Proof.
  intros N. rewrite select_by_id_updated.
  destruct (select_by_id j tb) as [r|] eqn:E; simpl; trivial.
  apply select_by_id_some in E as [_ Hid].
  assert (has_id i r = false) as -> by (apply has_id_false; congruence).
  reflexivity.
Qed.

Lemma updated_table_keys (i : string) (now : Datetime.t)
    (task_data : TaskUpdate.t) (tb : table) :
  map Task.id (updated_table i now task_data tb) = map Task.id tb
  /\ map Task.created_at (updated_table i now task_data tb)
     = map Task.created_at tb.
Proof.
  unfold updated_table.
  destruct (Py.truthy_dict (updates_of now task_data)); [|now split].
  unfold update_by_id. rewrite !map_map.
  split; apply map_ext; intros r; destruct (has_id i r); trivial;
    apply (apply_updates_fields now task_data r).
Qed.

End Updating.

(** C5.  On an existing task, an update whose status is exactly
    ["completed"] stores and returns a row with that status and with
    [completed_at] set to the time of the update, whatever the row held
    before: in particular a row already completed at another time gets its
    [completed_at] replaced. *)
Theorem update_completed_stamps_completed_at
    (tb : Db.table) (task_id : string) (now : Datetime.t)
    (new_name : option string) (old : Task.t) :
  Db.select_by_id task_id tb = Some old ->
  exists r' tb',
    update_task task_id now (TaskUpdate.make (Some "completed") new_name) tb
    = (Ok r', tb')
    /\ get_task task_id tb' = Ok r'
    /\ Task.status r' = "completed"
    /\ Task.completed_at r' = Some (Datetime.isoformat now)
    /\ (forall c, Task.status old = "completed" ->
                  Task.completed_at old = Some c ->
                  c <> Datetime.isoformat now ->
                  Task.completed_at r' <> Task.completed_at old).
Proof.
  intros Hold.
  set (td := TaskUpdate.make (Some "completed") new_name).
  exists (apply_updates now td old), (updated_table task_id now td tb).
  destruct (apply_updates_fields now td old) as (_ & _ & Hst & Hco & _).
  simpl in Hst, Hco.
  split; [now apply update_task_found|].
  split; [now apply get_task_updated|].
  repeat split; trivial.
  intros c _ Hc Hne. rewrite Hco, Hc. congruence.
Qed.

(** C6.  On an existing task, every update keeps [id] and [created_at] (of
    every row of the table); without a (non-empty) status it keeps [status]
    and [completed_at]; with any status other than ["completed"] it keeps
    [completed_at] while storing that status; without a (non-empty) name it
    keeps [name]; and it changes no other row. *)
Theorem update_task_frame
    (tb : Db.table) (task_id : string) (now : Datetime.t)
    (task_data : TaskUpdate.t) (old : Task.t) :
  Db.select_by_id task_id tb = Some old ->
  exists r' tb',
    update_task task_id now task_data tb = (Ok r', tb')
    /\ get_task task_id tb' = Ok r'
    /\ Task.id r' = Task.id old
    /\ Task.created_at r' = Task.created_at old
    /\ (Py.truthy_str (TaskUpdate.status task_data) = false ->
        Task.status r' = Task.status old
        /\ Task.completed_at r' = Task.completed_at old)
    /\ (TaskUpdate.status task_data <> Some "completed" ->
        Task.completed_at r' = Task.completed_at old)
    /\ (forall s, TaskUpdate.status task_data = Some s -> s <> "" ->
        Task.status r' = s)
    /\ (Py.truthy_str (TaskUpdate.name task_data) = false ->
        Task.name r' = Task.name old)
    /\ (forall j, j <> task_id ->
        Db.select_by_id j tb' = Db.select_by_id j tb)
    /\ map Task.id tb' = map Task.id tb
    /\ map Task.created_at tb' = map Task.created_at tb.
Proof.
  intros Hold.
  exists (apply_updates now task_data old),
         (updated_table task_id now task_data tb).
  destruct (apply_updates_fields now task_data old)
    as (Hid & Hcr & Hst & Hco & Hna).
  cbv zeta in *.
  split; [now apply update_task_found|].
  split; [now apply get_task_updated|].
  do 2 (split; trivial).
  split.
  { intros Hf. rewrite Hst, Hco.
    destruct (TaskUpdate.status task_data) as [s|]; [|now split].
    simpl in Hf. apply negb_false_iff, String.eqb_eq in Hf. now subst s. }
  split.
  { intros Hne. rewrite Hco.
    destruct (TaskUpdate.status task_data) as [s|]; trivial.
    destruct (String.eqb_spec s "completed"); congruence. }
  split.
  { intros s Hs Hne. rewrite Hst, Hs.
    now destruct (String.eqb_spec s ""). }
  split.
  { intros Hf. rewrite Hna.
    destruct (TaskUpdate.name task_data) as [n|]; trivial.
    simpl in Hf. apply negb_false_iff in Hf. now rewrite Hf. }
  split; [intros j Hj; now apply updated_table_other|].
  apply updated_table_keys.
Qed.

(** C7.  On an existing task, a status that is absent or empty is not
    applied, and neither is such a name; when both are, [update_task]
    writes nothing and returns the stored row unchanged, without error. *)
Theorem update_task_empty_fields_not_applied
    (tb : Db.table) (task_id : string) (now : Datetime.t)
    (task_data : TaskUpdate.t) (old : Task.t) :
  Db.select_by_id task_id tb = Some old ->
  exists r' tb',
    update_task task_id now task_data tb = (Ok r', tb')
    /\ (TaskUpdate.status task_data = None
        \/ TaskUpdate.status task_data = Some "" ->
        Task.status r' = Task.status old
        /\ Task.completed_at r' = Task.completed_at old)
    /\ (TaskUpdate.name task_data = None
        \/ TaskUpdate.name task_data = Some "" ->
        Task.name r' = Task.name old)
    /\ ((TaskUpdate.status task_data = None
         \/ TaskUpdate.status task_data = Some "") ->
        (TaskUpdate.name task_data = None
         \/ TaskUpdate.name task_data = Some "") ->
        r' = old /\ tb' = tb).
Proof.
  intros Hold.
  exists (apply_updates now task_data old),
         (updated_table task_id now task_data tb).
  destruct (apply_updates_fields now task_data old)
    as (_ & _ & Hst & Hco & Hna).
  cbv zeta in *.
  split; [now apply update_task_found|].
  split; [intros [E|E]; rewrite Hst, Hco, E; now split|].
  split; [intros [E|E]; now rewrite Hna, E|].
  intros Es En.
  assert (Hempty : updates_of now task_data = []).
  { unfold updates_of. destruct Es as [-> | ->], En as [-> | ->];
      reflexivity. }
  unfold apply_updates, updated_table. now rewrite Hempty.
Qed.

(** ** Invariants of the running service *)

(** Unfold one action of the service down to the handler it runs. *)
Ltac run_step := unfold World.step; cbn [World.run].

Section Invariants.

Import Db World.

Lemma complete_task_as_update (task_id : string) (now : Datetime.t)
    (tb : table) :
  complete_task task_id now tb
  = updated_table task_id now (TaskUpdate.make (Some "completed") None) tb.
Proof. reflexivity. Qed.

Lemma in_updated_table (i : string) (now : Datetime.t)
    (task_data : TaskUpdate.t) (tb : table) (r' : Task.t) :
  In r' (updated_table i now task_data tb) ->
  exists r, In r tb /\ (r' = r \/ r' = apply_updates now task_data r).
Proof.
  unfold updated_table.
  destruct (Py.truthy_dict (updates_of now task_data)).
  - unfold update_by_id. rewrite in_map_iff. intros (r & E & Hin).
    exists r. split; trivial.
    destruct (has_id i r); [right|left]; now subst.
  - intros Hin. exists r'. auto.
Qed.

Lemma not_issued (u : string) (l : list string) :
  negb (existsb (String.eqb u) l) = true <-> ~ In u l.
Proof.
  rewrite negb_true_iff. split.
  - intros H Hin. assert (E : existsb (String.eqb u) l = true).
    { apply existsb_exists. exists u. split; trivial. apply String.eqb_refl. }
    congruence.
  - intros H. destruct (existsb (String.eqb u) l) eqn:E; trivial.
    apply existsb_exists in E as (x & Hin & Hx).
    apply String.eqb_eq in Hx. now subst.
Qed.

(** A value [uuid4] has not returned before is the id of no row, so the
    INSERT of [create_task] meets no PRIMARY KEY conflict. *)
Lemma fresh_absent (w : World.t) (u : string) :
  wf w -> ~ In u (issued w) -> select_by_id u (db w) = None.
Proof.
  intros W Hu. apply select_by_id_none. intros r Hr E.
  apply Hu. rewrite <- E. now apply (wf_rows_issued w W).
Qed.

Lemma create_task_absent (u : string) (now : Datetime.t)
    (task_data : TaskCreate.t) (tb : table) :
  select_by_id u tb = None ->
  create_task u now task_data tb
  = (Ok (Task.make u (TaskCreate.name task_data) "running"
                   (Datetime.isoformat now) None),
     tb ++ [Task.make u (TaskCreate.name task_data) "running"
                      (Datetime.isoformat now) None]).
Proof.
  intros H. unfold create_task, insert. cbn [Task.id]. now rewrite H.
Qed.

Lemma wf_weaken_threads (w : World.t) (tb : table)
    (threads : list (Z * string)) :
  wf (make tb (sleeping w) (monotonic w) (wall w) (issued w)) ->
  (forall x, In x threads -> In x (sleeping w)) ->
  wf (make tb threads (monotonic w) (wall w) (issued w)).
Proof.
  intros [W1 W2 W4 W5 W6] Hsub. constructor; simpl in *; eauto.
Qed.

Lemma wf_updated (w : World.t) (i : string) (task_data : TaskUpdate.t) :
  wf w ->
  wf (make (updated_table i (wall w) task_data (db w)) (sleeping w)
           (monotonic w) (wall w) (issued w)).
Proof.
  intros [W1 W2 W4 W5 W6]. constructor; simpl; trivial.
  - intros r' Hr'. apply in_updated_table in Hr' as (r & Hr & [->| ->]).
    + auto.
    + destruct (apply_updates_fields (wall w) task_data r)
        as (_ & -> & _). auto.
  - intros r' Hr'. apply in_updated_table in Hr' as (r & Hr & [->| ->]).
    + auto.
    + rewrite apply_updates_id. auto.
  - now rewrite (proj1 (updated_table_keys i (wall w) task_data (db w))).
Qed.

Lemma nodup_map_filter (f : Task.t -> bool) (tb : table) :
  NoDup (map Task.id tb) -> NoDup (map Task.id (filter f tb)).
Proof.
  induction tb as [|r tb IH]; simpl; intros H; trivial.
  inversion H as [|? ? Hnin Hnd]; subst.
  destruct (f r); simpl; [constructor|]; auto.
  intros Hin. apply Hnin. apply in_map_iff in Hin as (x & E & Hx).
  apply filter_In in Hx as [Hx _]. apply in_map_iff. eauto.
Qed.

Lemma in_remove_nth {A : Type} (k : nat) (l : list A) (x : A) :
  In x (remove_nth k l) -> In x l.
Proof.
  unfold remove_nth. intros H. apply in_app_or in H as [H|H].
  - rewrite <- (firstn_skipn k l). apply in_or_app. now left.
  - rewrite <- (firstn_skipn (S k) l). apply in_or_app. now right.
Qed.

(** Every enabled action preserves the invariant. *)
Lemma wf_step (w : World.t) (a : action) :
  wf w -> enabledb w a = true -> wf (step w a).
Proof.
  intros W En. unfold step.
  destruct a as [u td|st lim|i|i td|i|el wall'|k]; simpl in *; trivial.
  - (* Create *)
    apply not_issued in En.
    rewrite (create_task_absent u (wall w) td (db w))
      by now apply fresh_absent.
    destruct W as [W1 W2 W4 W5 W6]. constructor; simpl; trivial.
    + intros r Hr. apply in_app_or in Hr as [Hr|[<-|[]]]; auto.
      exists (wall w). simpl. now split.
    + intros r Hr. apply in_app_or in Hr as [Hr|[<-|[]]]; simpl; auto.
    + intros wk j Hj. apply in_app_or in Hj as [Hj|[E|[]]].
      * right. eauto.
      * left. congruence.
    + rewrite map_app. simpl. apply NoDup_app; trivial.
      * repeat constructor. intros [].
      * intros x Hx [<-|[]]. apply En.
        apply in_map_iff in Hx as (r & <- & Hr). auto.
  - (* Update *)
    destruct (select_by_id i (db w)) as [old|] eqn:E.
    + rewrite (update_task_found _ _ _ _ _ E). simpl. now apply wf_updated.
    + rewrite (update_task_absent _ _ _ _ E). simpl. now destruct w.
  - (* Delete *)
    unfold delete_task.
    destruct (delete_by_id i (db w)) as [tb' rc] eqn:E.
    assert (Htb : tb' = filter (fun r => negb (has_id i r)) (db w))
      by (unfold delete_by_id in E; congruence).
    assert (W' : wf (make tb' (sleeping w) (monotonic w) (wall w)
                          (issued w))).
    { destruct W as [W1 W2 W4 W5 W6]. subst tb'.
      constructor; simpl; trivial.
      - intros r Hr. apply filter_In in Hr as [Hr _]. auto.
      - intros r Hr. apply filter_In in Hr as [Hr _]. auto.
      - now apply nodup_map_filter. }
    now destruct (rc =? 0).
  - (* Tick *)
    apply andb_true_iff in En as [_ Vw].
    destruct W as [W1 W2 W4 W5 W6]. now constructor.
  - (* Wake *)
    destruct (nth_error (sleeping w) k) as [[wk i]|] eqn:E; [|discriminate].
    simpl. rewrite complete_task_as_update.
    apply wf_weaken_threads; [now apply wf_updated|].
    simpl. intros x. apply in_remove_nth.
Qed.

Lemma wf_init (wall0 : Datetime.t) (tb : table) :
  Datetime.valid wall0 -> consistent tb -> wf (init wall0 tb).
Proof.
  intros V [Hkey Hrows]. constructor; simpl; trivial; try easy.
  intros r Hr. now apply in_map.
Qed.

Lemma consistent_nil : consistent [].
Proof. split; [constructor|intros r []]. Qed.

Lemma reachable_wf (w : World.t) : reachable w -> wf w.
Proof.
  induction 1 as [wall0 tb V C|w a _ IH En]; [now apply wf_init|].
  now apply wf_step.
Qed.

End Invariants.

(** ** Not found *)

Lemma delete_task_result (task_id : string) (tb : Db.table) :
  delete_task task_id tb
  = (match Db.select_by_id task_id tb with
     | None => Raise NotFound
     | Some _ => Ok tt
     end,
     fst (Db.delete_by_id task_id tb)).
Proof.
  unfold delete_task.
  pose proof (rowcount_zero task_id tb) as Hrc.
  destruct (Db.delete_by_id task_id tb) as [tb' rc]. simpl in *.
  destruct (Z.eqb_spec rc 0) as [E|N].
  - now rewrite (proj1 Hrc E).
  - destruct (Db.select_by_id task_id tb); trivial.
    now destruct N; apply Hrc.
Qed.

(** C4.  [get_task], [update_task] and [delete_task] raise the 404 error
    exactly when the table has no row with the given id, and return
    normally when it has one; the id of a deleted task and an id [uuid4]
    never returned are such absent ids. *)
Theorem not_found_iff_absent
    (tb : Db.table) (task_id : string) (now : Datetime.t)
    (task_data : TaskUpdate.t) :
  (get_task task_id tb = Raise NotFound <-> absent task_id tb)
  /\ (fst (update_task task_id now task_data tb) = Raise NotFound
      <-> absent task_id tb)
  /\ (fst (delete_task task_id tb) = Raise NotFound <-> absent task_id tb)
  /\ ((exists r, In r tb /\ Task.id r = task_id) ->
      (exists r, get_task task_id tb = Ok r)
      /\ (exists r, fst (update_task task_id now task_data tb) = Ok r)
      /\ fst (delete_task task_id tb) = Ok tt)
  /\ get_task task_id (snd (delete_task task_id tb)) = Raise NotFound
  /\ (forall w, World.reachable w -> ~ In task_id (World.issued w) ->
      get_task task_id (World.db w) = Raise NotFound).
Proof.
  rewrite <- !select_by_id_none, delete_task_result.
  split; [|split; [|split; [|split; [|split]]]].
  - unfold get_task. destruct (Db.select_by_id task_id tb); split;
      congruence.
  - destruct (Db.select_by_id task_id tb) as [old|] eqn:E.
    + rewrite (update_task_found _ _ _ _ _ E). split; discriminate.
    + now rewrite (update_task_absent _ _ _ _ E).
  - simpl. destruct (Db.select_by_id task_id tb); split; congruence.
  - intros Hex. apply select_by_id_present in Hex as (old & E).
    unfold get_task. rewrite (update_task_found _ _ _ _ _ E), E. simpl.
    eauto.
  - unfold get_task. cbn [snd].
    now rewrite select_by_id_delete, String.eqb_refl.
  - intros w Hw Hfresh. unfold get_task.
    now rewrite (fresh_absent w task_id (reachable_wf w Hw) Hfresh).
Qed.

(** ** Traces of the running service *)

Section Traces.

Import Db World.

Lemma issued_step (w : World.t) (a : action) :
  issued (step w a)
  = match a with
    | Create uuid4 _ => uuid4 :: issued w
    | _ => issued w
    end.
Proof.
  unfold step. destruct a as [u td|st lim|i|i td|i|el wall'|k]; simpl;
    trivial.
  - now destruct (create_task u (wall w) td (db w)).
  - now destruct (update_task i (wall w) td (db w)).
  - now destruct (delete_task i (db w)).
  - now destruct (nth_error (sleeping w) k) as [[wk i]|].
Qed.

(** [issued] is the list of the ids of the tasks created so far. *)
Lemma issued_run_trace (tr : list action) :
  forall w, issued (run_trace w tr) = created_ids (issued w) tr.
Proof.
  induction tr as [|a tr IH]; intros w; simpl; trivial.
  rewrite IH, issued_step. now destruct a.
Qed.

Lemma reachable_run_trace (tr : list action) :
  forall w, reachable w -> valid_trace w tr = true ->
            reachable (run_trace w tr).
Proof.
  induction tr as [|a tr IH]; intros w Hw Hv; simpl in *; trivial.
  apply andb_true_iff in Hv as [En Hv].
  apply IH; trivial. now constructor.
Qed.

(** An action that does not touch an id leaves its lookup unchanged. *)
Lemma untouched_step (w : World.t) (i : string) (a : action) :
  touches w i a = false ->
  select_by_id i (db (step w a)) = select_by_id i (db w).
Proof.
  unfold step.
  destruct a as [u td|st lim|j|j td|j|el wall'|k]; simpl; trivial;
    intros Ht.
  - apply String.eqb_neq in Ht.
    unfold create_task, insert. cbn [Task.id].
    destruct (select_by_id u (db w)); simpl; trivial.
    rewrite select_by_id_app.
    destruct (select_by_id i (db w)); trivial. simpl.
    unfold has_id. simpl.
    now destruct (String.eqb_spec u i).
  - apply String.eqb_neq in Ht.
    destruct (select_by_id j (db w)) as [old|] eqn:E.
    + rewrite (update_task_found _ _ _ _ _ E). simpl.
      apply updated_table_other. congruence.
    + now rewrite (update_task_absent _ _ _ _ E).
  - rewrite delete_task_result. cbn [fst db].
    now rewrite select_by_id_delete, Ht.
  - destruct (nth_error (sleeping w) k) as [[wk j]|]; trivial. simpl.
    apply String.eqb_neq in Ht.
    rewrite complete_task_as_update. apply updated_table_other. congruence.
Qed.

Lemma untouched_run_trace (i : string) (tr : list action) :
  forall w, untouched w i tr = true ->
            select_by_id i (db (run_trace w tr)) = select_by_id i (db w).
Proof.
  induction tr as [|a tr IH]; intros w Hu; simpl in *; trivial.
  apply andb_true_iff in Hu as [Ht Hu]. apply negb_true_iff in Ht.
  rewrite IH by trivial. now apply untouched_step.
Qed.

(** Once its row is gone, an id already issued never gets a row again. *)
Lemma absent_step (w : World.t) (i : string) (a : action) :
  wf w -> In i (issued w) -> select_by_id i (db w) = None ->
  enabledb w a = true ->
  select_by_id i (db (step w a)) = None.
Proof.
  intros W Hi Habs En.
  destruct a as [u td|st lim|j|j td|j|el wall'|k]; try exact Habs.
  - rewrite untouched_step; trivial. simpl in *.
    apply not_issued in En. apply String.eqb_neq. congruence.
  - unfold step. simpl.
    destruct (select_by_id j (db w)) as [old|] eqn:E.
    + rewrite (update_task_found _ _ _ _ _ E). simpl.
      now rewrite select_by_id_updated, Habs.
    + now rewrite (update_task_absent _ _ _ _ E).
  - unfold step. simpl. rewrite delete_task_result. cbn [fst db].
    rewrite select_by_id_delete, Habs. now destruct (j =? i)%string.
  - unfold step. simpl.
    destruct (nth_error (sleeping w) k) as [[wk j]|]; trivial. simpl.
    now rewrite complete_task_as_update, select_by_id_updated, Habs.
Qed.

Lemma deleted_stays_absent (tr : list action) :
  forall w (i : string),
    wf w -> In i (issued w) -> select_by_id i (db w) = None ->
    valid_trace w tr = true ->
    select_by_id i (db (run_trace w tr)) = None.
Proof.
  induction tr as [|a tr IH]; intros w i W Hi Habs Hv; simpl in *; trivial.
  apply andb_true_iff in Hv as [En Hv].
  apply IH; trivial.
  - now apply wf_step.
  - rewrite issued_step. destruct a; simpl; auto.
  - now apply absent_step.
Qed.

(** A row stays, with its [created_at], until it is deleted. *)
Lemma present_step (w : World.t) (i : string) (a : action) (r : Task.t) :
  select_by_id i (db w) = Some r ->
  never_deleted i [a] = true ->
  exists r', select_by_id i (db (step w a)) = Some r'
             /\ Task.created_at r' = Task.created_at r.
Proof.
  intros Hr Hnd. unfold step.
  destruct a as [u td|st lim|j|j td|j|el wall'|k]; cbn [run fst db];
    try (now exists r).
  - unfold create_task, insert. cbn [Task.id].
    destruct (select_by_id u (db w)); cbn [fst db]; [now exists r|].
    rewrite select_by_id_app, Hr. now exists r.
  - destruct (select_by_id j (db w)) as [old|] eqn:E.
    + rewrite (update_task_found _ _ _ _ _ E). cbn [fst db].
      rewrite select_by_id_updated, Hr. cbn [option_map].
      eexists. split; [reflexivity|].
      destruct (has_id j r); [|reflexivity].
      apply (apply_updates_fields (wall w) td r).
    + rewrite (update_task_absent _ _ _ _ E). now exists r.
  - simpl in Hnd. rewrite andb_true_r in Hnd. apply negb_true_iff in Hnd.
    rewrite delete_task_result. cbn [fst db].
    rewrite select_by_id_delete, Hnd. now exists r.
  - destruct (nth_error (sleeping w) k) as [[wk j]|]; cbn [fst db];
      [|now exists r].
    rewrite complete_task_as_update, select_by_id_updated, Hr.
    cbn [option_map]. eexists. split; [reflexivity|].
    destruct (has_id j r); [|reflexivity].
    apply (apply_updates_fields (wall w) _ r).
Qed.

(** A thread asleep after an action was asleep before it, or was started
    by it, to wake up [delay] seconds later. *)
Lemma sleeping_step (w : World.t) (a : action) (wake_at : Z) (i : string) :
  In (wake_at, i) (sleeping (step w a)) ->
  In (wake_at, i) (sleeping w)
  \/ ((exists task_data, a = Create i task_data)
      /\ wake_at = monotonic w + delay).
Proof.
  unfold step.
  destruct a as [u td|st lim|j|j td|j|el wall'|k]; cbn [run]; auto.
  - destruct (create_task u (wall w) td (db w)) as [[r|e] tb'];
      cbn [fst sleeping]; auto.
    intros H. apply in_app_or in H as [H|[H|[]]]; auto.
    injection H as <- <-. right. eauto.
  - destruct (update_task j (wall w) td (db w)); auto.
  - destruct (delete_task j (db w)); auto.
  - destruct (nth_error (sleeping w) k) as [[wk j]|]; cbn [fst sleeping];
      auto.
    intros H. left. now apply in_remove_nth in H.
Qed.

(** From its creation on, along a trace that does not delete it, a task
    keeps its row and its [created_at], and every thread asleep for it is
    the one its creation armed. *)
Lemma armed_until_woken (u c0 : string) (m : Z) (tr : list action) :
  forall w,
    wf w -> In u (issued w) ->
    (exists r, select_by_id u (db w) = Some r /\ Task.created_at r = c0) ->
    (forall wake_at, In (wake_at, u) (sleeping w) -> wake_at = m) ->
    valid_trace w tr = true -> never_deleted u tr = true ->
    wf (run_trace w tr)
    /\ (exists r, select_by_id u (db (run_trace w tr)) = Some r
                  /\ Task.created_at r = c0)
    /\ (forall wake_at, In (wake_at, u) (sleeping (run_trace w tr)) ->
                        wake_at = m).
Proof.
  induction tr as [|a tr IH]; intros w W Hi (r & Hr & Hc) Hth Hv Hnd;
    [simpl; eauto|].
  cbn [valid_trace never_deleted forallb run_trace] in *.
  apply andb_true_iff in Hv as [En Hv].
  apply andb_true_iff in Hnd as [Hnd1 Hnd].
  apply IH; trivial.
  - now apply wf_step.
  - rewrite issued_step. destruct a; simpl; auto.
  - destruct (present_step w u a r Hr) as (r' & Hr' & Hc').
    + simpl. now rewrite Hnd1.
    + exists r'. split; congruence.
  - intros wk Hwk. apply sleeping_step in Hwk as [Hwk|[(td & ->) _]]; auto.
    simpl in En. apply not_issued in En. contradiction.
Qed.

End Traces.

(** ** Creation and deferred completion *)


(** C10.  The record [create_task] answers is the record [get_task]
    answers for its id, field for field, right away and after any actions
    that do not write to that id (so before its completion thread wakes
    up). *)
Theorem create_then_get_roundtrip
    (w : World.t) (u : string) (task_data : TaskCreate.t) (r : Task.t)
    (tr : list World.action) :
  snd (World.run w (World.Create u task_data)) = World.RTask (Ok r) ->
  untouched (World.step w (World.Create u task_data)) (Task.id r) tr = true ->
  get_task (Task.id r) (World.db (World.step w (World.Create u task_data)))
  = Ok r
  /\ get_task (Task.id r)
       (World.db (run_trace (World.step w (World.Create u task_data)) tr))
     = Ok r.
Proof.
  intros Hr Hu.
  assert (H0 : get_task (Task.id r)
                 (World.db (World.step w (World.Create u task_data)))
               = Ok r).
  { revert Hr. run_step.
    unfold create_task, Db.insert. cbn [Task.id].
    destruct (Db.select_by_id u (World.db w)) eqn:E;
      cbn [fst snd World.db]; intros Hr; [discriminate|].
    injection Hr as <-. unfold get_task. cbn [Task.id].
    rewrite select_by_id_app, E. simpl. unfold Db.has_id. simpl.
    now rewrite String.eqb_refl. }
  split; trivial.
  unfold get_task in *. now rewrite untouched_run_trace.
Qed.

(** Waking up: the step of a completion thread whose task has its row. *)
Lemma wake_completes
    (w : World.t) (k : nat) (wake_at : Z) (task_id : string) (old : Task.t) :
  nth_error (World.sleeping w) k = Some (wake_at, task_id) ->
  Db.select_by_id task_id (World.db w) = Some old ->
  exists r,
    get_task task_id (World.db (World.step w (World.Wake k))) = Ok r
    /\ Task.status r = "completed"
    /\ Task.completed_at r = Some (Datetime.isoformat (World.wall w))
    /\ Task.created_at r = Task.created_at old.
Proof.
  intros Hk Hold.
  set (td := TaskUpdate.make (Some "completed") None).
  exists (apply_updates (World.wall w) td old).
  destruct (apply_updates_fields (World.wall w) td old)
    as (_ & Hcr & Hst & Hco & _).
  cbv zeta in *. simpl in Hst, Hco.
  split; [|now repeat split].
  run_step. rewrite Hk. cbn [fst World.db].
  rewrite complete_task_as_update. now apply get_task_updated.
Qed.

(** C3, as amended.  Take any reachable state, create a task there, and
    let anything happen afterwards except the deletion of that task.  When
    the completion thread of the task then wakes up, at least 20 seconds
    have elapsed since the creation, and after its step the row of the task
    has status ["completed"] and a [completed_at], the reading of the clock
    at that moment, while its [created_at] is still the reading at
    creation.  The two stamps compare as the two readings do: [completed_at]
    is not before [created_at] exactly when the clock read at completion is
    not before the clock read at creation. *)
Theorem deferred_completion_completes
    (w : World.t) (u : string) (task_data : TaskCreate.t)
    (tr : list World.action) (k : nat) (wake_at : Z) :
  World.reachable w ->
  World.enabledb w (World.Create u task_data) = true ->
  let w1 := World.step w (World.Create u task_data) in
  valid_trace w1 tr = true ->
  never_deleted u tr = true ->
  let w2 := run_trace w1 tr in
  nth_error (World.sleeping w2) k = Some (wake_at, u) ->
  World.enabledb w2 (World.Wake k) = true ->
  let w3 := World.step w2 (World.Wake k) in
  exists r c,
    get_task u (World.db w3) = Ok r
    /\ Task.status r = "completed"
    /\ Task.completed_at r = Some c
    /\ c = Datetime.isoformat (World.wall w2)
    /\ Task.created_at r = Datetime.isoformat (World.wall w)
    /\ World.monotonic w + 20 <= World.monotonic w2
    /\ String.leb (Task.created_at r) c
       = Datetime.leb (World.wall w) (World.wall w2).
Proof.
  intros Hw En w1 Hv Hnd w2 Hk Ewake w3.
  pose proof (reachable_wf w Hw) as W.
  pose proof (wf_step w _ W En) as W1.
  assert (Hfresh : ~ In u (World.issued w))
    by (simpl in En; now apply not_issued in En).
  pose proof (fresh_absent w u W Hfresh) as Habs.
  assert (Edb : World.db w1
                = World.db w ++
                  [Task.make u (TaskCreate.name task_data) "running"
                             (Datetime.isoformat (World.wall w)) None]).
  { unfold w1. run_step.
    now rewrite (create_task_absent u _ task_data _ Habs). }
  assert (Eth : World.sleeping w1
                = World.sleeping w ++ [(World.monotonic w + 20, u)]).
  { unfold w1. run_step.
    now rewrite (create_task_absent u _ task_data _ Habs). }
  destruct (armed_until_woken u (Datetime.isoformat (World.wall w))
              (World.monotonic w + 20) tr w1)
    as (W2 & (old & Hold & Hcr) & Hth); trivial.
  - unfold w1. rewrite issued_step. now left.
  - rewrite Edb, select_by_id_app, Habs. simpl. unfold Db.has_id. simpl.
    rewrite String.eqb_refl. eauto.
  - intros wk Hwk. rewrite Eth in Hwk.
    apply in_app_or in Hwk as [Hwk|[Hwk|[]]]; [|congruence].
    destruct Hfresh. exact (wf_threads_issued w W wk u Hwk).
  - fold w2 in W2, Hold, Hth.
    destruct (wake_completes w2 k wake_at u old Hk Hold)
      as (r & Hget & Hst & Hco & Hcr').
    exists r, (Datetime.isoformat (World.wall w2)). fold w3 in Hget.
    repeat split; trivial; try congruence.
    + rewrite <- (Hth wake_at) by (eapply nth_error_In; eauto).
      simpl in Ewake. rewrite Hk in Ewake. now apply Z.leb_le.
    + rewrite Hcr', Hcr. apply isoformat_leb.
      * apply (wf_wall w W).
      * apply (wf_wall w2 W2).
Qed.

(** C8.  After a task is deleted, whatever happens next, when its
    completion thread wakes up it answers to no caller, leaves the table
    as it is and creates no row: [get_task] on its id still raises the 404
    error. *)
Theorem completion_after_delete_is_noop
    (w : World.t) (task_id : string) (tr : list World.action)
    (k : nat) (wake_at : Z) :
  World.reachable w ->
  snd (World.run w (World.Delete task_id)) = World.RNoContent (Ok tt) ->
  valid_trace (World.step w (World.Delete task_id)) tr = true ->
  let w2 := run_trace (World.step w (World.Delete task_id)) tr in
  nth_error (World.sleeping w2) k = Some (wake_at, task_id) ->
  World.run w2 (World.Wake k)
  = (World.step w2 (World.Wake k), World.Internal)
  /\ World.db (World.step w2 (World.Wake k)) = World.db w2
  /\ get_task task_id (World.db (World.step w2 (World.Wake k)))
     = Raise NotFound.
Proof.
  intros Hw Hdel Hv w2 Hk.
  pose proof (reachable_wf w Hw) as W.
  assert (Hissued : In task_id (World.issued w)).
  { revert Hdel. cbn [World.run]. rewrite delete_task_result. cbn [snd].
    destruct (Db.select_by_id task_id (World.db w)) as [old|] eqn:E;
      [intros _|discriminate].
    apply select_by_id_some in E as [Hin <-].
    now apply (wf_rows_issued w W). }
  assert (Habs : Db.select_by_id task_id (World.db w2) = None).
  { apply deleted_stays_absent; trivial.
    - apply wf_step; trivial.
    - now rewrite issued_step.
    - run_step. rewrite delete_task_result.
      cbn [fst World.db].
      now rewrite select_by_id_delete, String.eqb_refl. }
  assert (Hdb : World.db (World.step w2 (World.Wake k)) = World.db w2).
  { run_step. rewrite Hk. cbn [fst World.db].
    unfold complete_task. now apply update_absent. }
  split; [|split; trivial].
  - run_step. now rewrite Hk.
  - rewrite Hdb. unfold get_task. now rewrite Habs.
Qed.

(** ** The statements on the sample run *)

Lemma reachable_trace (wall0 : Datetime.t) (tr : list World.action) :
  Datetime.valid wall0 -> valid_trace (World.init wall0 []) tr = true ->
  World.reachable (run_trace (World.init wall0 []) tr).
Proof.
  intros V Hv. apply reachable_run_trace; trivial.
  constructor; trivial. apply consistent_nil.
Qed.

(** The claim of C1 as it is stated fails on a table of one running task.
    With limit 0 the handler adds no LIMIT clause and returns the row, more
    than 0 rows; with limit -1 it returns the row as well; with the empty
    status filter it adds no WHERE clause, so it returns a row whose status
    is not the filter's; and with limit 2^63 the call ends in an error. *)
Lemma list_tasks_limit_zero_returns_rows :
  list_tasks None (Some 0) [Sample.row_a] = Ok [Sample.row_a]
  /\ ~ (Z.of_nat (List.length [Sample.row_a]) <= 0)
  /\ list_tasks None (Some (-1)) [Sample.row_a] = Ok [Sample.row_a]
  /\ ~ (Z.of_nat (List.length [Sample.row_a]) <= -1)
  /\ list_tasks (Some "") None [Sample.row_a] = Ok [Sample.row_a]
  /\ Task.status Sample.row_a <> ""
  /\ list_tasks None (Some (2 ^ 63)) [Sample.row_a] = Raise OverflowError.
Proof.
  split; [reflexivity|]. split; [simpl; lia|].
  split; [reflexivity|]. split; [simpl; lia|].
  split; [reflexivity|]. split; [discriminate|reflexivity].
Qed.

Lemma list_tasks_ordered_filtered_capped_witness :
  exists result full,
    list_tasks (Some "running") (Some 1) (World.db Sample.w_abc) = Ok result
    /\ list_tasks (Some "running") None (World.db Sample.w_abc) = Ok full
    /\ result = firstn 1 full
    /\ (forall r, In r result -> Task.status r = "running").
Proof.
  destruct (list_tasks_ordered_filtered_capped
              (World.db Sample.w_abc) (Some "running") (Some 1))
    as [H _].
  destruct H as (result & full & E & F & _ & _ & Hst & _ & Hlim & _).
  - intros n [= <-]. unfold in_int64. lia.
  - exists result, full. split; trivial. split; trivial. split.
    + apply (Hlim 1 eq_refl). lia.
    + apply Hst; [discriminate|reflexivity].
Defined.

(** The claim of C9 as it is stated fails: a negative limit below -2^63
    cannot be bound and the call raises [OverflowError] instead of returning
    the records; and with the empty status filter the records returned for
    limit -1 include one whose status is not the filter's. *)
Lemma list_tasks_negative_limit_overflows :
  list_tasks None (Some (- 2 ^ 63 - 1)) [Sample.row_a] = Raise OverflowError
  /\ list_tasks (Some "") (Some (-1)) [Sample.row_a] = Ok [Sample.row_a]
  /\ Task.status Sample.row_a <> "".
Proof. split; [reflexivity|]. split; [reflexivity|discriminate]. Qed.

Lemma list_tasks_negative_limit_witness :
  list_tasks None (Some (-1)) (World.db Sample.w_abc)
  = list_tasks None None (World.db Sample.w_abc).
Proof.
  apply (list_tasks_negative_limit (World.db Sample.w_abc) None (-1)).
  - lia.
  - unfold in_int64. lia.
Defined.



Lemma create_then_get_roundtrip_witness :
  get_task "a"
    (World.db
       (run_trace Sample.w_a
          [World.Tick 5 Sample.t1;
           World.Create "b" (TaskCreate.make None);
           World.Get "a";
           World.Update "b" (TaskUpdate.make (Some "done") None);
           World.Delete "b"]))
  = Ok Sample.row_a.
Proof.
  apply (create_then_get_roundtrip
           (World.init Sample.t0 []) "a" (TaskCreate.make (Some "build"))
           Sample.row_a
           [World.Tick 5 Sample.t1;
            World.Create "b" (TaskCreate.make None);
            World.Get "a";
            World.Update "b" (TaskUpdate.make (Some "done") None);
            World.Delete "b"]);
    reflexivity.
Defined.

(** The claim of C3 as it is stated fails when the local clock steps back
    between creation and completion: created at 01:59:50 and completed
    twenty seconds later, when the clock shows 01:00:10, the task gets a
    [completed_at] before its [created_at]. *)
Lemma completed_at_before_created_at :
  valid_trace (World.init Sample.dst_before []) Sample.trace_dst = true
  /\ get_task "a"
       (World.db (run_trace (World.init Sample.dst_before [])
                            Sample.trace_dst))
     = Ok (Task.make "a" (Some "build") "completed" "2024-11-03T01:59:50"
                     (Some "2024-11-03T01:00:10"))
  /\ String.leb "2024-11-03T01:59:50" "2024-11-03T01:00:10" = false.
Proof. repeat split. Qed.

Lemma deferred_completion_completes_witness :
  exists r c,
    get_task "a" (World.db (World.step Sample.w_a_late (World.Wake 0)))
    = Ok r
    /\ Task.status r = "completed"
    /\ Task.completed_at r = Some c
    /\ String.leb (Task.created_at r) c = true.
Proof.
  destruct (deferred_completion_completes
              (World.init Sample.t0 []) "a"
              (TaskCreate.make (Some "build"))
              [World.Tick 20 Sample.t3] 0 20)
    as (r & c & Hget & Hst & Hco & _ & _ & _ & Hle).
  - apply (reachable_trace Sample.t0 []); reflexivity.
  - reflexivity.
  - reflexivity.
  - reflexivity.
  - reflexivity.
  - reflexivity.
  - exists r, c. repeat split; trivial.
Defined.

Lemma completion_after_delete_is_noop_witness :
  get_task "a"
    (World.db
       (World.step
          (run_trace (World.step Sample.w_a (World.Delete "a"))
                     [World.Tick 20 Sample.t3])
          (World.Wake 0)))
  = Raise NotFound.
Proof.
  apply (completion_after_delete_is_noop
           Sample.w_a "a" [World.Tick 20 Sample.t3] 0 20).
  - apply (reachable_trace Sample.t0 Sample.trace_a); reflexivity.
  - reflexivity.
  - reflexivity.
  - reflexivity.
Defined.

Lemma not_found_iff_absent_witness :
  get_task "d" (World.db Sample.w_abc) = Raise NotFound
  /\ fst (delete_task "b" (World.db Sample.w_abc)) = Ok tt.
Proof.
  destruct (not_found_iff_absent
              (World.db Sample.w_abc) "d" Sample.t2
              (TaskUpdate.make None None))
    as ([_ Hget] & _).
  destruct (not_found_iff_absent
              (World.db Sample.w_abc) "b" Sample.t2
              (TaskUpdate.make None None))
    as (_ & _ & _ & Hex & _).
  split.
  - apply Hget. apply select_by_id_none. reflexivity.
  - apply Hex. exists Sample.row_b. split; [simpl; tauto|reflexivity].
Defined.

Lemma update_completed_stamps_completed_at_witness :
  exists r' tb',
    update_task "a" Sample.t3 (TaskUpdate.make (Some "completed") None)
                (World.db Sample.w_abc)
    = (Ok r', tb')
    /\ Task.completed_at r' = Some "2024-05-17T09:30:20.004500".
Proof.
  destruct (update_completed_stamps_completed_at
              (World.db Sample.w_abc) "a" Sample.t3 None Sample.row_a
              eq_refl)
    as (r' & tb' & Hrun & _ & _ & Hco & _).
  exists r', tb'. auto.
Defined.

Lemma update_task_frame_witness :
  exists r' tb',
    update_task "a" Sample.t3 (TaskUpdate.make (Some "done") None)
                (World.db Sample.w_abc)
    = (Ok r', tb')
    /\ Task.status r' = "done"
    /\ Task.completed_at r' = None.
Proof.
  destruct (update_task_frame
              (World.db Sample.w_abc) "a" Sample.t3
              (TaskUpdate.make (Some "done") None) Sample.row_a eq_refl)
    as (r' & tb' & Hrun & _ & _ & _ & _ & Hco & Hst & _).
  exists r', tb'. split; trivial. split.
  - apply (Hst "done" eq_refl). discriminate.
  - apply Hco. discriminate.
Defined.

Lemma update_task_empty_fields_not_applied_witness :
  update_task "a" Sample.t3 (TaskUpdate.make (Some "") None)
              (World.db Sample.w_abc)
  = (Ok Sample.row_a, World.db Sample.w_abc).
Proof.
  destruct (update_task_empty_fields_not_applied
              (World.db Sample.w_abc) "a" Sample.t3
              (TaskUpdate.make (Some "") None) Sample.row_a eq_refl)
    as (r' & tb' & Hrun & _ & _ & Hnoop).
  destruct Hnoop as [-> ->]; [now right|now left|exact Hrun].
Defined.

(** * Further properties of the code *)

(** ** Timestamps as sort keys *)

Section Timestamps.

Import Datetime.

Lemma lex_eq (c1 c2 : comparison) : lex c1 c2 = Eq -> c1 = Eq /\ c2 = Eq.
Proof. destruct c1; simpl; intros H; try discriminate. now split. Qed.

Lemma datetime_compare_eq (a b : t) : compare a b = Eq -> a = b.
Proof.
  unfold compare. intros H.
  repeat (apply lex_eq in H as [?%Z.compare_eq H]).
  apply Z.compare_eq in H. destruct a, b; simpl in *. congruence.
Qed.

End Timestamps.

(** The strings [datetime.now().isoformat()] writes into [created_at] and
    [completed_at] compare byte by byte, as ORDER BY compares them, exactly
    as the clock readings compare; in particular different readings give
    different strings, and an earlier reading gives a smaller string. *)
Theorem isoformat_order_embedding (a b : Datetime.t) :
  Datetime.valid a -> Datetime.valid b ->
  String.compare (Datetime.isoformat a) (Datetime.isoformat b)
  = Datetime.compare a b
  /\ (Datetime.isoformat a = Datetime.isoformat b -> a = b)
  /\ (Datetime.compare a b = Lt ->
      String.ltb (Datetime.isoformat a) (Datetime.isoformat b) = true).
Proof.
  intros Va Vb. pose proof (isoformat_compare a b Va Vb) as E.
  split; [exact E|]. split.
  - intros H. apply datetime_compare_eq. rewrite <- E, H.
    apply string_compare_refl.
  - intros H. unfold String.ltb. now rewrite E, H.
Qed.

Lemma isoformat_order_embedding_witness :
  String.ltb (Datetime.isoformat Sample.t0) (Datetime.isoformat Sample.t1)
  = true.
Proof.
  apply (isoformat_order_embedding Sample.t0 Sample.t1); reflexivity.
Defined.

(** ** Listing and lookup on the running service *)

Section ListingLookup.

Import Db World.

Lemma strongly_sorted_impl {A : Type} (R R' : A -> A -> Prop) (l : list A) :
  (forall x y, In x l -> In y l -> R x y -> R' x y) ->
  StronglySorted R l -> StronglySorted R' l.
Proof.
  induction l as [|a l IH]; intros Himp Hs; [constructor|].
  inversion Hs as [|? ? Hs' Hall]; subst. constructor.
  - apply IH; trivial. intros x y Hx Hy. apply Himp; now right.
  - rewrite Forall_forall in *. intros y Hy.
    apply Himp; [now left|now right|auto].
Qed.

Lemma list_tasks_in_table (status : option string) (limit : option Z)
    (tb : table) (l : list Task.t) (r : Task.t) :
  list_tasks status limit tb = Ok l -> In r l -> In r tb.
Proof.
  intros E Hr. apply (list_tasks_prefix _ _ _ _ _ E) in Hr.
  unfold listing in Hr.
  apply (Permutation_in _ (order_by_perm _)) in Hr.
  now apply filter_In in Hr.
Qed.

Lemma in_list_tasks_all (tb : table) (r : Task.t) :
  In r tb ->
  exists l, list_tasks None None tb = Ok l /\ In r l.
Proof.
  intros Hr. exists (listing None tb).
  split; [apply list_tasks_unlimited|]. unfold listing.
  apply (Permutation_in _ (Permutation_sym (order_by_perm _))).
  apply filter_In. now split.
Qed.

Lemma nodup_ids_eq (tb : table) (r1 r2 : Task.t) :
  NoDup (map Task.id tb) -> In r1 tb -> In r2 tb ->
  Task.id r1 = Task.id r2 -> r1 = r2.
Proof.
  induction tb as [|x tb IH]; intros Hnd H1 H2 E; [destruct H1|].
  inversion Hnd as [|? ? Hnin Hnd']; subst.
  destruct H1 as [->|H1], H2 as [->|H2]; auto.
  - destruct Hnin. rewrite E. now apply in_map.
  - destruct Hnin. rewrite <- E. now apply in_map.
Qed.

Lemma select_by_id_in (tb : table) (r : Task.t) :
  NoDup (map Task.id tb) -> In r tb -> select_by_id (Task.id r) tb = Some r.
Proof.
  intros Hnd Hr.
  destruct (select_by_id_present (Task.id r) tb) as (x & Hx); [eauto|].
  rewrite Hx. f_equal.
  apply select_by_id_some in Hx as [Hin Hid].
  now apply (nodup_ids_eq tb).
Qed.

End ListingLookup.

(** In every reachable state, whatever the filter and the limit, the
    records [list_tasks] returns are in order of creation time, most recent
    first: each [created_at] is a formatted clock reading, and the reading
    of a record is not before the reading of any record listed after it. *)
Theorem listing_is_chronological
    (w : World.t) (status : option string) (limit : option Z)
    (l : list Task.t) :
  World.reachable w ->
  list_tasks status limit (World.db w) = Ok l ->
  StronglySorted chronological l.
Proof.
  intros Hw E. pose proof (reachable_wf w Hw) as W.
  apply (strongly_sorted_impl newest_first);
    [|now apply (list_tasks_strongly_sorted status limit (World.db w))].
  intros x y Hx Hy Hxy.
  apply (list_tasks_in_table _ _ _ _ _ E) in Hx, Hy.
  destruct (wf_created w W x Hx) as (dx & Vx & Ex).
  destruct (wf_created w W y Hy) as (dy & Vy & Ey).
  exists dx, dy. repeat split; trivial.
  unfold newest_first in Hxy. unfold Datetime.le.
  now rewrite Ex, Ey, isoformat_leb in Hxy.
Qed.

Lemma listing_is_chronological_witness :
  StronglySorted chronological [Sample.row_c; Sample.row_b].
Proof.
  apply (listing_is_chronological Sample.w_abc None (Some 2)).
  - apply (reachable_trace Sample.t0 Sample.trace_abc); reflexivity.
  - reflexivity.
Defined.

(** In every reachable state [id] is a key of the table: no two rows have
    the same id. *)
Theorem primary_key_invariant (w : World.t) :
  World.reachable w ->
  NoDup (map Task.id (World.db w))
  /\ (forall r1 r2, In r1 (World.db w) -> In r2 (World.db w) ->
                    Task.id r1 = Task.id r2 -> r1 = r2).
Proof.
  intros Hw. pose proof (wf_primary_key w (reachable_wf w Hw)) as Hnd.
  split; trivial. intros r1 r2. now apply nodup_ids_eq.
Qed.

Lemma primary_key_invariant_witness :
  NoDup (map Task.id (World.db Sample.w_abc)).
Proof.
  apply (primary_key_invariant Sample.w_abc).
  apply (reachable_trace Sample.t0 Sample.trace_abc); reflexivity.
Defined.

(** In every reachable state listing and lookup agree: every record
    [list_tasks] returns is the record [get_task] returns for its id, and
    every record [get_task] returns is in the unfiltered, unlimited
    listing. *)
Theorem list_and_get_agree
    (w : World.t) (status : option string) (limit : option Z) :
  World.reachable w ->
  (forall l r, list_tasks status limit (World.db w) = Ok l -> In r l ->
               get_task (Task.id r) (World.db w) = Ok r)
  /\ (forall i r, get_task i (World.db w) = Ok r ->
                  exists l, list_tasks None None (World.db w) = Ok l
                            /\ In r l).
Proof.
  intros Hw. pose proof (wf_primary_key w (reachable_wf w Hw)) as Hnd.
  split.
  - intros l r E Hr. apply (list_tasks_in_table _ _ _ _ _ E) in Hr.
    unfold get_task.
    now rewrite (select_by_id_in _ r Hnd Hr), row_to_task_id.
  - intros i r. unfold get_task.
    destruct (Db.select_by_id i (World.db w)) as [x|] eqn:E;
      [|discriminate].
    rewrite row_to_task_id. intros [= <-].
    apply in_list_tasks_all. now apply select_by_id_some in E.
Qed.

Lemma list_and_get_agree_witness :
  get_task "c" (World.db Sample.w_abc) = Ok Sample.row_c.
Proof.
  apply (proj1 (list_and_get_agree Sample.w_abc (Some "running") (Some 1)
                  (reachable_trace Sample.t0 Sample.trace_abc
                     eq_refl eq_refl))
               [Sample.row_c] Sample.row_c).
  - reflexivity.
  - simpl. tauto.
Defined.

(** ** Failing requests *)

(** When [uuid4] returns the id of a stored row, the INSERT of
    [create_task] violates the PRIMARY KEY: the handler raises
    [IntegrityError], the table is unchanged and no completion thread is
    started. *)
Theorem create_duplicate_id_fails
    (w : World.t) (u : string) (task_data : TaskCreate.t) :
  (exists r, In r (World.db w) /\ Task.id r = u) ->
  snd (World.run w (World.Create u task_data))
  = World.RTask (Raise IntegrityError)
  /\ World.db (World.step w (World.Create u task_data)) = World.db w
  /\ World.sleeping (World.step w (World.Create u task_data))
     = World.sleeping w.
Proof.
  intros Hex. apply select_by_id_present in Hex as (r & Hr).
  run_step. unfold create_task, Db.insert. cbn [Task.id].
  now rewrite Hr.
Qed.

Lemma create_duplicate_id_fails_witness :
  snd (World.run Sample.w_abc (World.Create "b" (TaskCreate.make None)))
  = World.RTask (Raise IntegrityError).
Proof.
  apply (create_duplicate_id_fails Sample.w_abc "b" (TaskCreate.make None)).
  exists Sample.row_b. split; [simpl; tauto|reflexivity].
Defined.

(** The only exception [get_task], [update_task] and [delete_task] raise
    is the 404 error, and the only one [create_task] raises is
    [IntegrityError]; in particular the final SELECT of [update_task]
    always finds the row, so [row_to_task] is never given [None].  A
    handler that raises leaves the table exactly as it was. *)
Theorem failed_requests_change_nothing
    (tb : Db.table) (i : string) (now : Datetime.t)
    (task_data : TaskUpdate.t) (new_task : TaskCreate.t) (e : error) :
  (get_task i tb = Raise e -> e = NotFound)
  /\ (fst (update_task i now task_data tb) = Raise e ->
      e = NotFound /\ snd (update_task i now task_data tb) = tb)
  /\ (fst (delete_task i tb) = Raise e ->
      e = NotFound /\ snd (delete_task i tb) = tb)
  /\ (fst (create_task i now new_task tb) = Raise e ->
      e = IntegrityError /\ snd (create_task i now new_task tb) = tb).
Proof.
  split; [|split; [|split]].
  - unfold get_task. destruct (Db.select_by_id i tb); congruence.
  - destruct (Db.select_by_id i tb) as [old|] eqn:E.
    + rewrite (update_task_found _ _ _ _ _ E). discriminate.
    + rewrite (update_task_absent _ _ _ _ E). simpl.
      intros [= <-]. now split.
  - rewrite delete_task_result. cbn [fst snd].
    destruct (Db.select_by_id i tb) eqn:E; [discriminate|].
    intros [= <-]. split; trivial. now apply delete_absent.
  - unfold create_task, Db.insert. cbn [Task.id].
    destruct (Db.select_by_id i tb); cbn [fst snd]; [|discriminate].
    intros [= <-]. now split.
Qed.

Lemma failed_requests_change_nothing_witness :
  snd (update_task "d" Sample.t3 (TaskUpdate.make (Some "completed") None)
                   (World.db Sample.w_abc))
  = World.db Sample.w_abc.
Proof.
  apply (failed_requests_change_nothing
           (World.db Sample.w_abc) "d" Sample.t3
           (TaskUpdate.make (Some "completed") None)
           (TaskCreate.make None) NotFound).
  reflexivity.
Defined.

(** ** Deleting *)

Section Deleting.

Import Db.

Lemma delete_one_row (tb : table) (r : Task.t) :
  NoDup (map Task.id tb) -> In r tb ->
  Permutation tb (r :: fst (delete_by_id (Task.id r) tb)).
Proof.
  unfold delete_by_id. cbn [fst].
  induction tb as [|x tb IH]; intros Hnd Hr; [destruct Hr|].
  inversion Hnd as [|? ? Hnin Hnd']; subst. cbn [filter].
  destruct (has_id (Task.id r) x) eqn:E; cbn [negb].
  - apply has_id_true in E.
    assert (x = r) as ->.
    { destruct Hr as [|Hr]; trivial. destruct Hnin. rewrite E.
      now apply in_map. }
    constructor.
    assert (Habs : select_by_id (Task.id r) tb = None).
    { apply select_by_id_none. intros y Hy Ey. apply Hnin.
      rewrite <- Ey. now apply in_map. }
    apply delete_absent in Habs. unfold delete_by_id in Habs.
    cbn [fst] in Habs. now rewrite Habs.
  - destruct Hr as [->|Hr].
    + apply has_id_false in E. now destruct E.
    + rewrite perm_swap. constructor. now apply IH.
Qed.

End Deleting.

(** In every reachable state, deleting a stored task removes exactly its
    row: the old table is the deleted row plus the new table, so there is
    one row less; the lookup of every other id is unchanged; and deleting
    the same id again raises the 404 error and changes nothing. *)
Theorem delete_removes_exactly_one_row
    (w : World.t) (i : string) (r : Task.t) :
  World.reachable w ->
  Db.select_by_id i (World.db w) = Some r ->
  let tb' := snd (delete_task i (World.db w)) in
  fst (delete_task i (World.db w)) = Ok tt
  /\ Permutation (World.db w) (r :: tb')
  /\ S (List.length tb') = List.length (World.db w)
  /\ (forall j, j <> i ->
      Db.select_by_id j tb' = Db.select_by_id j (World.db w))
  /\ delete_task i tb' = (Raise NotFound, tb').
Proof.
  intros Hw Hr tb'. subst tb'.
  pose proof (wf_primary_key w (reachable_wf w Hw)) as Hnd.
  rewrite delete_task_result, Hr. cbn [fst snd].
  destruct (select_by_id_some _ _ _ Hr) as [Hin Hid]. subst i.
  pose proof (delete_one_row _ r Hnd Hin) as P.
  split; trivial. split; trivial.
  split; [now rewrite (Permutation_length P)|].
  split.
  - intros j Hj. rewrite select_by_id_delete.
    now destruct (String.eqb_spec (Task.id r) j); [congruence|].
  - assert (Habs : Db.select_by_id (Task.id r)
                     (fst (Db.delete_by_id (Task.id r) (World.db w)))
                   = None)
      by now rewrite select_by_id_delete, String.eqb_refl.
    rewrite delete_task_result, Habs. f_equal. now apply delete_absent.
Qed.

Lemma delete_removes_exactly_one_row_witness :
  Permutation (World.db Sample.w_abc)
              (Sample.row_b :: snd (delete_task "b" (World.db Sample.w_abc)))
  /\ delete_task "b" (snd (delete_task "b" (World.db Sample.w_abc)))
     = (Raise NotFound, [Sample.row_a; Sample.row_c]).
Proof.
  destruct (delete_removes_exactly_one_row Sample.w_abc "b" Sample.row_b)
    as (_ & P & _ & _ & H).
  - apply (reachable_trace Sample.t0 Sample.trace_abc); reflexivity.
  - reflexivity.
  - split; [exact P|exact H].
Defined.

(** ** More on updating *)

Section MoreUpdating.

Import Db.

Lemma task_eq (r1 r2 : Task.t) :
  Task.id r1 = Task.id r2 -> Task.name r1 = Task.name r2 ->
  Task.status r1 = Task.status r2 ->
  Task.created_at r1 = Task.created_at r2 ->
  Task.completed_at r1 = Task.completed_at r2 -> r1 = r2.
Proof. destruct r1, r2; simpl. congruence. Qed.

(** [update_task] rewrites the rows with the id, in place. *)
Lemma updated_table_map (i : string) (now : Datetime.t)
    (task_data : TaskUpdate.t) (tb : table) :
  updated_table i now task_data tb
  = map (fun r => if has_id i r then apply_updates now task_data r else r) tb.
Proof.
  unfold updated_table.
  destruct (Py.truthy_dict (updates_of now task_data)) eqn:E; trivial.
  rewrite <- (map_id tb) at 1. apply map_ext. intros r.
  rewrite apply_updates_empty by trivial. now destruct (has_id i r).
Qed.

Lemma apply_updates_twice (now1 now2 : Datetime.t)
    (task_data : TaskUpdate.t) (r : Task.t) :
  (TaskUpdate.status task_data = Some "completed" ->
   Datetime.isoformat now2 = Datetime.isoformat now1) ->
  apply_updates now2 task_data (apply_updates now1 task_data r)
  = apply_updates now1 task_data r.
Proof.
  intros Hnow.
  destruct (apply_updates_fields now1 task_data r)
    as (I1 & C1 & S1 & D1 & N1).
  destruct (apply_updates_fields now2 task_data
              (apply_updates now1 task_data r))
    as (I2 & C2 & S2 & D2 & N2).
  cbv zeta in *. apply task_eq; trivial.
  - rewrite N2, N1. destruct (TaskUpdate.name task_data) as [n|]; trivial.
    now destruct (n =? "")%string.
  - rewrite S2, S1. destruct (TaskUpdate.status task_data) as [s|]; trivial.
    now destruct (s =? "")%string.
  - rewrite D2, D1. destruct (TaskUpdate.status task_data) as [s|]; trivial.
    destruct (String.eqb_spec s "completed") as [->|N]; trivial.
    now rewrite Hnow.
Qed.

End MoreUpdating.

(** No update clears a field: on an existing task, whatever the request, a
    name that was present stays present, a [completed_at] that was present
    stays present, and a non-empty status stays non-empty. *)
Theorem update_never_clears
    (tb : Db.table) (i : string) (now : Datetime.t)
    (task_data : TaskUpdate.t) (old : Task.t) :
  Db.select_by_id i tb = Some old ->
  exists r' tb',
    update_task i now task_data tb = (Ok r', tb')
    /\ (Task.name old <> None -> Task.name r' <> None)
    /\ (Task.completed_at old <> None -> Task.completed_at r' <> None)
    /\ (Task.status old <> "" -> Task.status r' <> "").
Proof.
  intros Hold.
  exists (apply_updates now task_data old), (updated_table i now task_data tb).
  destruct (apply_updates_fields now task_data old)
    as (_ & _ & Hst & Hco & Hna).
  cbv zeta in *. split; [now apply update_task_found|].
  rewrite Hst, Hco, Hna. repeat split.
  - destruct (TaskUpdate.name task_data) as [n|]; trivial.
    destruct (n =? "")%string; [trivial|discriminate].
  - destruct (TaskUpdate.status task_data) as [s|]; trivial.
    destruct (s =? "completed")%string; [discriminate|trivial].
  - destruct (TaskUpdate.status task_data) as [s|]; trivial.
    destruct (String.eqb_spec s ""); trivial.
Qed.

Lemma update_never_clears_witness :
  exists r' tb',
    update_task "a" Sample.t3 (TaskUpdate.make None (Some ""))
                (World.db Sample.w_abc)
    = (Ok r', tb')
    /\ Task.name r' <> None.
Proof.
  destruct (update_never_clears
              (World.db Sample.w_abc) "a" Sample.t3
              (TaskUpdate.make None (Some "")) Sample.row_a eq_refl)
    as (r' & tb' & Hrun & Hna & _).
  exists r', tb'. split; trivial. apply Hna. discriminate.
Defined.

(** Repeating an update changes nothing more: on an existing task, the
    same request issued a second time, at any time when its status is not
    ["completed"] and at the same clock reading when it is, returns the
    record the first one returned and leaves the table as the first one
    left it. *)
Theorem update_task_idempotent
    (tb : Db.table) (i : string) (now1 now2 : Datetime.t)
    (task_data : TaskUpdate.t) (old : Task.t) :
  Db.select_by_id i tb = Some old ->
  (TaskUpdate.status task_data = Some "completed" ->
   Datetime.isoformat now2 = Datetime.isoformat now1) ->
  update_task i now2 task_data (snd (update_task i now1 task_data tb))
  = update_task i now1 task_data tb.
Proof.
  intros Hold Hnow.
  rewrite (update_task_found _ _ _ _ _ Hold). cbn [snd].
  assert (Hnew : Db.select_by_id i (updated_table i now1 task_data tb)
                 = Some (apply_updates now1 task_data old)).
  { rewrite select_by_id_updated, Hold. simpl.
    apply select_by_id_some in Hold as [_ Hid].
    apply has_id_true in Hid. now rewrite Hid. }
  rewrite (update_task_found _ _ _ _ _ Hnew).
  rewrite apply_updates_twice by trivial. f_equal.
  rewrite (updated_table_map i now2), (updated_table_map i now1), map_map.
  apply map_ext. intros r. destruct (Db.has_id i r) eqn:E; rewrite ?E; trivial.
  assert (E' : Db.has_id i (apply_updates now1 task_data r) = true).
  { unfold Db.has_id in *. now rewrite apply_updates_id. }
  rewrite E'. now apply apply_updates_twice.
Qed.

Lemma update_task_idempotent_witness :
  update_task "a" Sample.t3 (TaskUpdate.make (Some "done") (Some "deploy"))
    (snd (update_task "a" Sample.t2
            (TaskUpdate.make (Some "done") (Some "deploy"))
            (World.db Sample.w_abc)))
  = update_task "a" Sample.t2 (TaskUpdate.make (Some "done") (Some "deploy"))
                (World.db Sample.w_abc).
Proof.
  apply (update_task_idempotent
           (World.db Sample.w_abc) "a" Sample.t2 Sample.t3
           (TaskUpdate.make (Some "done") (Some "deploy")) Sample.row_a).
  - reflexivity.
  - discriminate.
Defined.



(** ** What the rows of the table can be *)

Section Rows.

Import Db World.

(** A row present after an action was there before, or is a row rewritten
    by an UPDATE of the action, or is the row a [Create] inserted. *)
Lemma rows_step (w : World.t) (a : action) (r' : Task.t) :
  In r' (db (step w a)) ->
  In r' (db w)
  \/ (exists r task_data,
        In r (db w) /\ r' = apply_updates (wall w) task_data r)
  \/ (exists u task_data,
        a = Create u task_data
        /\ r' = Task.make u (TaskCreate.name task_data) "running"
                          (Datetime.isoformat (wall w)) None).
Proof.
  destruct a as [u td|st lim|j|j td|j|el wall'|k]; auto.
  - run_step. unfold create_task, insert. cbn [Task.id].
    destruct (select_by_id u (db w)); cbn [fst db]; auto.
    intros H. apply in_app_or in H as [H|[<-|[]]]; auto.
    right. right. eauto.
  - run_step. destruct (select_by_id j (db w)) as [old|] eqn:E.
    + rewrite (update_task_found _ _ _ _ _ E). cbn [fst db].
      intros H. apply in_updated_table in H as (r & Hr & [->| ->]); auto.
      right. left. eauto.
    + rewrite (update_task_absent _ _ _ _ E). auto.
  - run_step. rewrite delete_task_result. cbn [fst db].
    unfold delete_by_id. cbn [fst]. intros H.
    apply filter_In in H as [H _]. auto.
  - run_step. destruct (nth_error (sleeping w) k) as [[wk j]|]; auto.
    cbn [fst db]. rewrite complete_task_as_update. intros H.
    apply in_updated_table in H as (r & Hr & [->| ->]); auto.
    right. left. eauto.
Qed.

End Rows.

(** A row with status ["completed"] always has a [completed_at]: if this
    holds of the table the service runs on, it holds after every sequence
    of requests, clock ticks and thread wake-ups. *)
Theorem completed_rows_have_completed_at (tr : list World.action) :
  forall w : World.t,
    completed_has_time (World.db w) ->
    completed_has_time (World.db (run_trace w tr)).
Proof.
  induction tr as [|a tr IH]; intros w H; [exact H|].
  cbn [run_trace]. apply IH. intros r' Hr' Hst.
  apply rows_step in Hr'
    as [Hr'|[(r & td & Hr & ->)|(u & td & _ & ->)]];
    [auto| |discriminate].
  destruct (apply_updates_fields (World.wall w) td r)
    as (_ & _ & Es & Ec & _).
  cbv zeta in *. rewrite Ec. rewrite Es in Hst.
  destruct (TaskUpdate.status td) as [s|]; [|now apply H].
  destruct (String.eqb_spec s "completed") as [->|N]; [discriminate|].
  destruct (s =? "")%string; [now apply H|contradiction].
Qed.

Lemma completed_rows_have_completed_at_witness :
  completed_has_time
    (World.db
       (run_trace Sample.w_abc
          [World.Update "a" (TaskUpdate.make (Some "completed") None);
           World.Update "a" (TaskUpdate.make (Some "running") None);
           World.Delete "c"])).
Proof.
  apply (completed_rows_have_completed_at
           [World.Update "a" (TaskUpdate.make (Some "completed") None);
            World.Update "a" (TaskUpdate.make (Some "running") None);
            World.Delete "c"]
           Sample.w_abc).
  intros r [<-|[<-|[<-|[]]]]; discriminate.
Defined.

(** No request and no thread ever stores the empty status: if no row of
    the table the service runs on has it, no row has it after any sequence
    of requests, clock ticks and thread wake-ups. *)
Theorem status_is_never_empty (tr : list World.action) :
  forall w : World.t,
    status_nonempty (World.db w) ->
    status_nonempty (World.db (run_trace w tr)).
Proof.
  induction tr as [|a tr IH]; intros w H; [exact H|].
  cbn [run_trace]. apply IH. intros r' Hr'.
  apply rows_step in Hr'
    as [Hr'|[(r & td & Hr & ->)|(u & td & _ & ->)]];
    [auto| |discriminate].
  destruct (apply_updates_fields (World.wall w) td r) as (_ & _ & -> & _).
  destruct (TaskUpdate.status td) as [s|]; [|now apply H].
  destruct (String.eqb_spec s ""); [now apply H|trivial].
Qed.

Lemma status_is_never_empty_witness :
  status_nonempty
    (World.db
       (run_trace Sample.w_abc
          [World.Update "a" (TaskUpdate.make (Some "") (Some "x"))])).
Proof.
  apply (status_is_never_empty
           [World.Update "a" (TaskUpdate.make (Some "") (Some "x"))]
           Sample.w_abc).
  intros r [<-|[<-|[<-|[]]]]; discriminate.
Defined.

(** ** The sleeping completion threads *)

Section Threads.

Import Db World.

Lemma remove_nth_cons {A : Type} (k : nat) (x : A) (l : list A) :
  remove_nth (S k) (x :: l) = x :: remove_nth k l.
Proof. reflexivity. Qed.

Lemma nodup_remove_nth {A B : Type} (f : A -> B) (k : nat) (l : list A) :
  NoDup (map f l) -> NoDup (map f (remove_nth k l)).
Proof.
  revert k. induction l as [|x l IH]; intros k Hnd.
  - destruct k; exact Hnd.
  - inversion Hnd as [|? ? Hnin Hnd']; subst. destruct k as [|k].
    + exact Hnd'.
    + rewrite remove_nth_cons. simpl. constructor; [|now apply IH].
      intros Hin. apply Hnin. apply in_map_iff in Hin as (y & E & Hy).
      apply in_map_iff. exists y. split; trivial.
      now apply in_remove_nth in Hy.
Qed.

Lemma monotonic_step (w : World.t) (a : action) :
  enabledb w a = true -> monotonic w <= monotonic (step w a).
Proof.
  unfold step.
  destruct a as [u td|st lim|j|j td|j|el wall'|k]; cbn [run]; intros En.
  - destruct (create_task u (wall w) td (db w)). simpl. lia.
  - simpl. lia.
  - simpl. lia.
  - destruct (update_task j (wall w) td (db w)). simpl. lia.
  - destruct (delete_task j (db w)). simpl. lia.
  - simpl in *. apply andb_true_iff in En as [En _].
    apply Z.leb_le in En. lia.
  - destruct (nth_error (sleeping w) k) as [[wk j]|]; simpl; lia.
Qed.

Lemma threads_step (w : World.t) (a : action) :
  wf w -> enabledb w a = true ->
  NoDup (map snd (sleeping w)) -> NoDup (map snd (sleeping (step w a))).
Proof.
  intros W En Hnd. unfold step.
  destruct a as [u td|st lim|j|j td|j|el wall'|k]; cbn [run]; trivial.
  - simpl in En. apply not_issued in En.
    rewrite (create_task_absent u (wall w) td (db w))
      by now apply fresh_absent.
    cbn [fst sleeping]. rewrite map_app. cbn [map snd].
    apply NoDup_app; trivial.
    + repeat constructor. intros [].
    + intros x Hx [<-|[]]. apply En.
      apply in_map_iff in Hx as ([wk i] & <- & Hin).
      exact (wf_threads_issued w W wk i Hin).
  - now destruct (update_task j (wall w) td (db w)).
  - now destruct (delete_task j (db w)).
  - destruct (nth_error (sleeping w) k) as [[wk j]|]; trivial.
    cbn [fst sleeping]. now apply nodup_remove_nth.
Qed.

End Threads.

(** In every reachable state a task has at most one completion thread
    asleep, so its timer completes it at most once; and no thread is due
    to wake up more than 20 seconds from now. *)
Theorem one_sleeping_thread_per_task (w : World.t) :
  World.reachable w ->
  NoDup (map snd (World.sleeping w))
  /\ (forall wake_at i, In (wake_at, i) (World.sleeping w) ->
                        wake_at <= World.monotonic w + 20).
Proof.
  induction 1 as [wall0 tb V C|w a Hw [IHn IHb] En].
  - split; [constructor|intros wk i []].
  - split; [now apply threads_step; [apply reachable_wf| |]|].
    intros wk i Hin. pose proof (monotonic_step w a En) as Hm.
    apply sleeping_step in Hin as [Hin|[_ ->]].
    + specialize (IHb wk i Hin). lia.
    + unfold World.delay. lia.
Qed.

Lemma one_sleeping_thread_per_task_witness :
  NoDup (map snd (World.sleeping Sample.w_abc)).
Proof.
  apply (one_sleeping_thread_per_task Sample.w_abc).
  apply (reachable_trace Sample.t0 Sample.trace_abc); reflexivity.
Defined.

Section Startup.

Import Db World.

Lemma no_timer_for (i : string) (tr : list action) :
  forall w,
    In i (issued w) ->
    (forall wake_at, ~ In (wake_at, i) (sleeping w)) ->
    valid_trace w tr = true -> no_request_writes i tr = true ->
    select_by_id i (db (run_trace w tr)) = select_by_id i (db w).
Proof.
  induction tr as [|a tr IH]; intros w Hi Hno Hv Hnw; [reflexivity|].
  cbn [valid_trace no_request_writes forallb run_trace] in *.
  apply andb_true_iff in Hv as [En Hv].
  apply andb_true_iff in Hnw as [Ha Hnw].
  rewrite IH; trivial.
  - apply untouched_step.
    destruct a as [u td|st lim|j|j td|j|el wall'|k]; simpl in *; trivial.
    + apply not_issued in En. apply String.eqb_neq. congruence.
    + now apply negb_true_iff.
    + now apply negb_true_iff.
    + destruct (nth_error (sleeping w) k) as [[wk j]|] eqn:E; trivial.
      apply String.eqb_neq. intros ->.
      apply (Hno wk). eapply nth_error_In; eauto.
  - rewrite issued_step. destruct a; simpl; auto.
  - intros wk Hin. apply sleeping_step in Hin as [Hin|[(td & ->) _]].
    + now apply (Hno wk).
    + simpl in En. apply not_issued in En. contradiction.
Qed.

End Startup.

(** The timers do not survive a restart: a task that is in the table when
    the service starts keeps its row exactly as it is, never completed by
    a thread, whatever happens, until a request updates or deletes it. *)
Theorem stored_before_start_never_completed_by_timer
    (file : Db.table) (wall0 : Datetime.t) (i : string) (r : Task.t)
    (tr : list World.action) :
  Db.select_by_id i file = Some r ->
  valid_trace (World.init wall0 (init_db (Some file))) tr = true ->
  no_request_writes i tr = true ->
  get_task i (World.db (run_trace (World.init wall0 (init_db (Some file))) tr))
  = Ok r.
Proof.
  intros Hr Hv Hnw. unfold get_task.
  rewrite (no_timer_for i tr); trivial.
  - cbn [init_db World.init World.db]. now rewrite Hr, row_to_task_id.
  - cbn [init_db World.init World.issued].
    apply select_by_id_some in Hr as [Hin <-]. now apply in_map.
  - intros wk [].
Qed.

Lemma stored_before_start_never_completed_by_timer_witness :
  get_task "a"
    (World.db
       (run_trace (World.init Sample.t2 (init_db (Some [Sample.row_a])))
          [World.Tick 100 Sample.t3;
           World.Create "b" (TaskCreate.make None);
           World.Tick 20 Sample.t3; World.Wake 0]))
  = Ok Sample.row_a.
Proof.
  apply (stored_before_start_never_completed_by_timer
           [Sample.row_a] Sample.t2 "a" Sample.row_a
           [World.Tick 100 Sample.t3;
            World.Create "b" (TaskCreate.make None);
            World.Tick 20 Sample.t3; World.Wake 0]);
    reflexivity.
Defined.

(** ** Insertion order and listing order *)

Section InsertionOrder.

Import Db World.

Lemma strongly_sorted_filter {A : Type} (R : A -> A -> Prop)
    (f : A -> bool) (l : list A) :
  StronglySorted R l -> StronglySorted R (filter f l).
Proof.
  induction 1 as [|a l Hs IH Hall]; simpl; [constructor|].
  destruct (f a); trivial. constructor; trivial.
  rewrite Forall_forall in *. intros y Hy.
  apply filter_In in Hy as [Hy _]. auto.
Qed.

Lemma insert_desc_last (x : Task.t) (l : list Task.t) :
  (forall y, In y l -> strictly_older x y) -> insert_desc x l = l ++ [x].
Proof.
  induction l as [|y l IH]; intros H; simpl; trivial.
  rewrite (H y (or_introl eq_refl)). f_equal. apply IH.
  intros z Hz. apply H. now right.
Qed.

Lemma order_by_strictly_ascending (l : list Task.t) :
  StronglySorted strictly_older l -> order_by_created_at_desc l = rev l.
Proof.
  induction 1 as [|x l Hs IH Hall]; simpl; trivial.
  rewrite IH. apply insert_desc_last.
  rewrite Forall_forall in Hall. intros y Hy. apply Hall.
  now apply in_rev.
Qed.

End InsertionOrder.

(** When the rows of the table have strictly increasing [created_at] in
    insertion order, [list_tasks] returns the rows that match the (absent
    or non-empty) status filter in exactly the reverse of insertion order,
    and with a limit [n >= 1] that fits a signed 64-bit integer the last
    [n] of them, latest first. *)
Theorem list_tasks_reverses_insertion_order
    (tb : Db.table) (status : option string) :
  StronglySorted strictly_older tb ->
  status <> Some "" ->
  list_tasks status None tb = Ok (rev (filter (status_matches status) tb))
  /\ (forall n, 0 < n < 2 ^ 63 ->
      list_tasks status (Some n) tb
      = Ok (firstn (Z.to_nat n) (rev (filter (status_matches status) tb)))).
Proof.
  intros Hs Hne.
  assert (E : listing status tb = rev (filter (status_matches status) tb)).
  { unfold listing.
    rewrite (filter_ext _ _ (fun r => where_keeps_matches status r Hne)).
    apply order_by_strictly_ascending. now apply strongly_sorted_filter. }
  split; [now rewrite list_tasks_unlimited, E|]. intros n Hn.
  rewrite list_tasks_limited, E. destruct (Z.eqb_spec n 0); [lia|].
  assert (Hb : Db.binds n = true)
    by (apply binds_in_int64; unfold in_int64; lia).
  rewrite Hb. now rewrite limit_positive by lia.
Qed.

Lemma list_tasks_reverses_insertion_order_witness :
  list_tasks (Some "running") None (World.db Sample.w_abc)
  = Ok [Sample.row_c; Sample.row_a].
Proof.
  apply (list_tasks_reverses_insertion_order
           (World.db Sample.w_abc) (Some "running")).
  - repeat constructor.
  - discriminate.
Defined.
